(** * PSD procedural logic engine: [services/psdService.ts]

    A shallow embedding of the template extractor, the layer-tree
    serializer, the path resolver, the containment validator and the
    compositing engine, followed by the properties the specification
    states about them.

    The source file holds two copies of the service.  They are embedded
    side by side: module [V1] is the first copy (dot-joined path ids,
    full validator, culling compositor) and module [V2] is the second
    (ids of the form root-i-j, reduced validator, offset compositor). *)

From Stdlib Require Import ZArith QArith Ascii String List Lia Bool.
From stdpp Require Import base option list strings gmap.

Close Scope Q_scope.
Open Scope Z_scope.
Set Warnings "-register-all".

(** ** JavaScript primitives used by the service *)

Module Js.

(** Exceptions the modelled code can raise. *)
Inductive exn : Type :=
  | TypeError          (* property access on undefined / null *)
  | InvalidStateError. (* drawImage on a zero-sized canvas source *)

(** A computation either completes with a value or throws. *)
Inductive result (A : Type) : Type :=
  | Ok (a : A)
  | Throw (e : exn).
Arguments Ok {A} a.
Arguments Throw {A} e.

Definition bind {A B} (r : result A) (k : A -> result B) : result B :=
  match r with
  | Ok a => k a
  | Throw e => Throw e
  end.

(** [try { body } catch (e) { }] around a statement. *)
Definition try_catch {A} (body : result A) (handler : exn -> result A) : result A :=
  match body with
  | Ok a => Ok a
  | Throw e => handler e
  end.

(** Numbers as [Number] and [parseInt] produce them from decimal text:
    NaN, an infinity, or the decimal [m * 10^e], kept exact.  The
    rounding, overflow and underflow of binary64 are not modelled:
    [Number] of "1e-400" is 0 in JavaScript and 10^-400 here, and a
    literal of more than fifteen significant digits may round to an
    integer there.  On a run of decimal digits that denotes an array
    index, the only text the serializers put in an id, the value is the
    JavaScript one. *)
Inductive jsnum : Type :=
  | JNaN
  | JInf (negative : bool)
  | JDec (m e : Z).

(** The array index a number denotes as a property key, if any:
    [ToString] of the number is a canonical index exactly when the number
    is a non-negative integer (minus zero prints as "0"). *)
Definition as_index (n : jsnum) : option nat :=
  match n with
  | JNaN | JInf _ => None
  | JDec m e =>
      if m <? 0 then None
      else if 0 <=? e then Some (Z.to_nat (m * 10 ^ e))
      else let d := 10 ^ (- e) in
           if m mod d =? 0 then Some (Z.to_nat (m / d)) else None
  end.

(** [arr[n]]: [None] is [undefined]. *)
Definition index {A} (arr : list A) (n : jsnum) : option A :=
  match as_index n with
  | Some k => arr !! k
  | None => None
  end.

(** [n >= len] for an array length; every comparison with NaN is false. *)
Definition ge_length (n : jsnum) (len : nat) : bool :=
  match n with
  | JNaN => false
  | JInf negative => negb negative
  | JDec m e =>
      if 0 <=? e then Z.of_nat len <=? m * 10 ^ e
      else Z.of_nat len * 10 ^ (- e) <=? m
  end.

(** *** Text *)

Definition is_space (c : ascii) : bool :=
  existsb (Ascii.eqb c) [" "; "009"; "010"; "011"; "012"; "013"]%char.

Definition digit_val (radix : N) (c : ascii) : option Z :=
  let n := N_of_ascii c in
  let v :=
    if (48 <=? n)%N && (n <=? 57)%N then Some (n - 48)%N
    else if (97 <=? n)%N && (n <=? 102)%N then Some (n - 87)%N
    else if (65 <=? n)%N && (n <=? 70)%N then Some (n - 55)%N
    else None in
  match v with
  | Some d => if (d <? radix)%N then Some (Z.of_N d) else None
  | None => None
  end.

Definition is_digit (c : ascii) : bool :=
  match digit_val 10 c with Some _ => true | None => false end.

Fixpoint digits_acc (radix : N) (s : string) (acc : Z) : option Z :=
  match s with
  | EmptyString => Some acc
  | String c r =>
      match digit_val radix c with
      | Some d => digits_acc radix r (Z.of_N radix * acc + d)
      | None => None
      end
  end.

(** A non-empty run of digits, and nothing else. *)
Definition digits (radix : N) (s : string) : option Z :=
  match s with
  | EmptyString => None
  | _ => digits_acc radix s 0
  end.

Fixpoint trim_start (s : string) : string :=
  match s with
  | String c r => if is_space c then trim_start r else s
  | EmptyString => EmptyString
  end.

Fixpoint trim_end (s : string) : string :=
  match s with
  | EmptyString => EmptyString
  | String c r =>
      match trim_end r with
      | EmptyString => if is_space c then EmptyString else String c EmptyString
      | r' => String c r'
      end
  end.

Definition trim (s : string) : string := trim_end (trim_start s).

(** The text before the first character satisfying [p], and the text
    after it when there is one. *)
Fixpoint break_at (p : ascii -> bool) (s : string) : string * option string :=
  match s with
  | EmptyString => (EmptyString, None)
  | String c r =>
      if p c then (EmptyString, Some r)
      else let '(before, after) := break_at p r in (String c before, after)
  end.

(** [s.split(sep)] for a one-character separator. *)
Fixpoint split (sep : ascii) (s : string) : list string :=
  match s with
  | EmptyString => [EmptyString]
  | String c r =>
      if Ascii.eqb c sep then EmptyString :: split sep r
      else match split sep r with
           | h :: t => String c h :: t
           | [] => [String c EmptyString]
           end
  end.

(** Non-decimal integer literals: 0x, 0o, 0b in either case. *)
Definition radix_literal (s : string) : option Z :=
  match s with
  | String "0" (String k r) =>
      if Ascii.eqb k "x" || Ascii.eqb k "X" then digits 16 r
      else if Ascii.eqb k "o" || Ascii.eqb k "O" then digits 8 r
      else if Ascii.eqb k "b" || Ascii.eqb k "B" then digits 2 r
      else None
  | _ => None
  end.

Definition signed (s : string) : bool * string :=
  match s with
  | String "+" r => (false, r)
  | String "-" r => (true, r)
  | _ => (false, s)
  end.

(** The exponent part after [e]: an optional sign and digits. *)
Definition exponent (s : string) : option Z :=
  let '(neg, r) := signed s in
  match digits 10 r with
  | Some v => Some (if neg then - v else v)
  | None => None
  end.

(** An unsigned decimal literal: digits, an optional fraction, an
    optional exponent; one of the integer and fraction parts may be
    empty when the point is present. *)
Definition decimal_literal (s : string) : option (Z * Z) :=
  let '(mant, ex) := break_at (fun c => Ascii.eqb c "e" || Ascii.eqb c "E") s in
  let '(int, fr) := break_at (fun c => Ascii.eqb c ".") mant in
  let e := match ex with
           | None => Some 0
           | Some x => exponent x
           end in
  let m := match fr with
           | None => option_map (fun v => (v, 0)) (digits 10 int)
           | Some f =>
               match int, f with
               | EmptyString, EmptyString => None
               | _, _ =>
                   match digits_acc 10 int 0 with
                   | Some i =>
                       option_map (fun v => (v, - Z.of_nat (String.length f)))
                                  (digits_acc 10 f i)
                   | None => None
                   end
               end
           end in
  match m, e with
  | Some (v, shift), Some x => Some (v, x + shift)
  | _, _ => None
  end.

(** [Number(s)] on a string (StringToNumber).  White space is the
    ASCII one; JavaScript also trims the Unicode spaces. *)
Definition Number (s : string) : jsnum :=
  let t := trim s in
  match t with
  | EmptyString => JDec 0 0
  | _ =>
      match radix_literal t with
      | Some v => JDec v 0
      | None =>
          let '(neg, r) := signed t in
          if String.eqb r "Infinity" then JInf neg
          else match decimal_literal r with
               | Some (m, e) => JDec (if neg then - m else m) e
               | None => JNaN
               end
      end
  end.

(** The longest prefix of decimal digits. *)
Fixpoint take_digits (s : string) : string :=
  match s with
  | String c r => if is_digit c then String c (take_digits r) else EmptyString
  | EmptyString => EmptyString
  end.

(** [parseInt(s, 10)]. *)
Definition parseInt10 (s : string) : jsnum :=
  let '(neg, r) := signed (trim_start s) in
  match digits 10 (take_digits r) with
  | Some v => JDec (if neg then - v else v) 0
  | None => JNaN
  end.

Definition digit_char (d : nat) : ascii := ascii_of_nat (48 + d).

(** [`${n}`] for a non-negative integer; [fuel] bounds the number of
    digits and [S n] always suffices. *)
Fixpoint nat_str_aux (fuel n : nat) (acc : string) : string :=
  match fuel with
  | O => acc
  | S fuel' =>
      let acc' := String (digit_char (n mod 10)) acc in
      if (n <? 10)%nat then acc' else nat_str_aux fuel' (n / 10) acc'
  end.

Definition nat_str (n : nat) : string := nat_str_aux (S n) n EmptyString.

(** [o || d] on an optional string: undefined and the empty string are
    falsy. *)
Definition str_or (o : option string) (d : string) : string :=
  match o with
  | Some EmptyString | None => d
  | Some s => s
  end.

(** [s.replace(/^!!/, '')]. *)
Definition strip_bangs (s : string) : string :=
  match s with
  | String "!" (String "!" r) => r
  | _ => s
  end.

(** [s.replace(/\s+/g, '_')]: each maximal run of white space becomes one
    underscore. *)
Fixpoint underscore_run (in_run : bool) (s : string) : string :=
  match s with
  | EmptyString => EmptyString
  | String c r =>
      if is_space c
      then if in_run then underscore_run true r
           else String "_" (underscore_run true r)
      else String c (underscore_run false r)
  end.

Definition underscore_spaces (s : string) : string := underscore_run false s.

End Js.

Import Js.

Declare Scope js_scope.
Notation "x <- c1 ;; c2" := (bind c1 (fun x => c2))
  (at level 100, c1 at next level, right associativity) : js_scope.
Open Scope js_scope.

(** ** Data model *)

(** The pixel surface a native layer may carry. *)
Record Canvas : Type := mkCanvas { cv_width : N; cv_height : N }.

(** A native node of the decoded document ([Layer] of the decoder).
    Every field is optional there; [None] is [undefined]. *)
Inductive Layer : Type := mkLayer {
  l_name : option string;
  l_top : option Z;
  l_left : option Z;
  l_bottom : option Z;
  l_right : option Z;
  l_hidden : option bool;
  l_opacity : option Z;
  l_canvas : option Canvas;
  l_children : option (list Layer)
}.

(** The decoded document: its dimensions, any number or undefined, and
    the top-level nodes. *)
Record Psd : Type := mkPsd {
  p_width : option Q;
  p_height : option Q;
  p_children : option (list Layer)
}.

Record Box (A : Type) : Type := mkBox { bx : A; by_ : A; bw : A; bh : A }.
Arguments mkBox {A} _ _ _ _.
Arguments bx {A} _.
Arguments by_ {A} _.
Arguments bw {A} _.
Arguments bh {A} _.

Inductive Kind : Type := KLayer | KGroup | KGenerative.

Inductive SerializableLayer : Type := mkSerializable {
  s_id : string;
  s_name : string;
  s_type : Kind;
  s_isVisible : bool;
  s_opacity : Q;
  s_coords : Box Z;
  s_children : option (list SerializableLayer)
}.

Record ContainerDefinition : Type := mkContainer {
  c_id : string;
  c_name : string;
  c_originalName : string;
  c_bounds : Box Z;
  c_normalized : Box Q
}.

Record TemplateMetadata : Type := mkTemplate {
  canvas_width : Q;
  canvas_height : Q;
  containers : list ContainerDefinition
}.

Record ValidationIssue : Type := mkIssue {
  layerName : string;
  containerName : string;
  issue_type : string;
  message : string
}.

Record DesignValidationReport : Type := mkReport {
  isValid : bool;
  issues : list ValidationIssue
}.

(** [child.name === '!!TEMPLATE'] *)
Definition is_template (l : Layer) : bool :=
  match l_name l with
  | Some n => String.eqb n "!!TEMPLATE"
  | None => false
  end.

(** [o ?? d] *)
Definition nullish {A} (o : option A) (d : A) : A :=
  match o with Some a => a | None => d end.

(** [o || d] on an optional number: undefined and zero are falsy. *)
Definition z_or (o : option Z) (d : Z) : Z :=
  match o with
  | Some 0 | None => d
  | Some z => z
  end.

(** [o || d] on an optional dimension: undefined and zero are falsy,
    every other number, negative or fractional, is kept. *)
Definition dim_or (o : option Q) (d : Q) : Q :=
  match o with
  | Some q => if Qeq_bool q 0 then d else q
  | None => d
  end.

Definition ratio (a b : Z) : Q := Qdiv (inject_Z a) (inject_Z b).

(** [a / b] for a pixel coordinate and a canvas dimension. *)
Definition over (a : Z) (b : Q) : Q := Qdiv (inject_Z a) b.

(** [layer.children]: reading a property of [undefined] is a TypeError. *)
Definition prop_children (l : option Layer) : result (option (list Layer)) :=
  match l with
  | Some layer => Ok (l_children layer)
  | None => Throw TypeError
  end.

(** [layers.forEach((child, index) => ...)] collecting what each
    callback pushes, with the index the callback receives. *)
Section ForEach.
Context {A B : Type} (f : A -> nat -> list B).
Fixpoint collect_from (index : nat) (layers : list A) : list B :=
  match layers with
  | [] => []
  | child :: rest => f child index ++ collect_from (S index) rest
  end.
End ForEach.

(** ** Transformed payload and raster surface *)

(** A node of the externally planned render tree.  [t_rotation] is
    [transform.rotation], in degrees.  Coordinates, opacity and rotation
    are finite numbers, taken as exact rationals: NaN and the infinities,
    and sums that leave the range of binary64, are outside the model. *)
Inductive TransformedLayer : Type := mkTransformed {
  t_id : string;
  t_type : Kind;
  t_isVisible : bool;
  t_opacity : Q;
  t_coords : Box Q;
  t_rotation : option Q;
  t_children : option (list TransformedLayer)
}.

(** [payload.metrics.target] *)
Record Target : Type := mkTarget {
  tw : Q;
  th : Q;
  tx : option Q;
  ty : option Q
}.

Record TransformedPayload : Type := mkPayload {
  target : Target;
  layers : list TransformedLayer;
  previewUrl : option string
}.

(** What a 2D context is asked to do, in the order of the calls.
    [OpRotate] keeps the angle in degrees; [OpGradientFill] stands for
    creating the linear gradient, adding its stops and selecting it as
    fill style. *)
Inductive DrawOp : Type :=
  | OpSave
  | OpRestore
  | OpGlobalAlpha (a : Q)
  | OpFillStyle (style : string)
  | OpStrokeStyle (style : string)
  | OpLineWidth (width : Q)
  | OpFont (font : string)
  | OpGradientFill (x0 y0 x1 y1 : Q) (stops : list (Q * string))
  | OpFillRect (x y w h : Q)
  | OpStrokeRect (x y w h : Q)
  | OpFillText (text : string) (x y : Q)
  | OpTranslate (x y : Q)
  | OpRotate (degrees : Q)
  | OpDrawImage (source : Canvas) (x y w h : Q).

(** The drawing context: the calls received so far. *)
Definition Ctx : Type := list DrawOp.

Definition emit (op : DrawOp) (ctx : Ctx) : result Ctx := Ok (ctx ++ [op]).

(** [ctx.drawImage(source, x, y, w, h)]: a canvas source with a zero
    dimension raises InvalidStateError and nothing is drawn. *)
Definition drawImage (source : Canvas) (x y w h : Q) (ctx : Ctx) : result Ctx :=
  if (cv_width source =? 0)%N || (cv_height source =? 0)%N
  then Throw InvalidStateError
  else emit (OpDrawImage source x y w h) ctx.

(** The encoded snapshot [canvas.toDataURL(mime, quality)] stands for:
    the values assigned to [canvas.width] and [canvas.height] and the
    calls the context received. *)
Record Snapshot : Type := mkSnapshot {
  snap_mime : string;
  snap_quality : option Q;
  snap_width : Q;
  snap_height : Q;
  snap_ops : Ctx
}.

(** [for (let i = layers.length - 1; i >= 0; i--) body(layers[i])]:
    the tail of the list is processed before its head. *)
Section ReverseLoop.
Context {A S : Type} (body : A -> S -> result S).
Fixpoint for_reverse (layers : list A) (s : S) : result S :=
  match layers with
  | [] => Ok s
  | layer :: rest => s' <- for_reverse rest s ;; body layer s'
  end.
End ReverseLoop.


(** [o || 0] on an optional number of the payload. *)
Definition q_or0 (o : option Q) : Q :=
  match o with
  | Some q => if Qeq_bool q 0 then 0%Q else q
  | None => 0%Q
  end.

Definition q_truthy (o : option Q) : bool :=
  match o with
  | Some q => negb (Qeq_bool q 0)
  | None => false
  end.

Definition str_truthy (o : option string) : bool :=
  match o with
  | Some EmptyString | None => false
  | Some _ => true
  end.

Definition Qlt_bool (a b : Q) : bool := negb (Qle_bool b a).

(** ** First copy of the service *)

Module V1.

(** The path of the child at [index] under [path]. *)
Definition currentPath (path : string) (index : nat) : string :=
  match path with
  | EmptyString => nat_str index
  | _ => path +:+ "." +:+ nat_str index
  end.

(** One iteration of the [forEach] in [getCleanLayerTree]: nothing for
    the template group, one node otherwise. *)
Fixpoint cleanNode (path : string) (child : Layer) (index : nat)
  : list SerializableLayer :=
  if is_template child then []
  else
    let top := nullish (l_top child) 0 in
    let left := nullish (l_left child) 0 in
    let bottom := nullish (l_bottom child) 0 in
    let right := nullish (l_right child) 0 in
    let width := right - left in
    let height := bottom - top in
    [ {| s_id := currentPath path index;
         s_name := str_or (l_name child) ("Layer " +:+ nat_str index);
         s_type := match l_children child with Some _ => KGroup | None => KLayer end;
         s_isVisible := negb (nullish (l_hidden child) false);
         s_opacity := ratio (nullish (l_opacity child) 255) 255;
         s_coords := mkBox left top width height;
         s_children :=
           match l_children child with
           | Some cs => Some (collect_from (cleanNode (currentPath path index)) 0 cs)
           | None => None
           end |} ].

Definition getCleanLayerTree (layers : list Layer) (path : string)
  : list SerializableLayer :=
  collect_from (cleanNode path) 0 layers.

(** The loop of [findLayerByPath] over the decoded indices. *)
Fixpoint walk (indices : list jsnum) (currentLayers : option (list Layer))
    (targetLayer : option Layer) : result (option Layer) :=
  match indices with
  | [] => Ok targetLayer
  | index :: rest =>
      match currentLayers with
      | None => Ok None
      | Some arr =>
          match Js.index arr index with
          | None => Ok None
          | Some _ =>
              let targetLayer := Js.index arr index in
              currentLayers <- prop_children targetLayer ;;
              walk rest currentLayers targetLayer
          end
      end
  end.

Definition findLayerByPath (psd : Psd) (pathId : string) : result (option Layer) :=
  match pathId with
  | EmptyString => Ok None
  | _ =>
      let indices := map Number (split "." pathId) in
      walk indices (p_children psd) None
  end.

(** [psd.children?.find(child => child.name === '!!TEMPLATE')] *)
Definition templateGroup (psd : Psd) : option Layer :=
  match p_children psd with
  | Some cs => List.find is_template cs
  | None => None
  end.

(** One iteration of the [forEach] over the template group's children. *)
Definition containerOf (canvasWidth canvasHeight : Q) (child : Layer) (index : nat)
  : list ContainerDefinition :=
  let top := nullish (l_top child) 0 in
  let left := nullish (l_left child) 0 in
  let bottom := nullish (l_bottom child) 0 in
  let right := nullish (l_right child) 0 in
  let width := right - left in
  let height := bottom - top in
  let rawName := str_or (l_name child) "Untitled" in
  let cleanName := strip_bangs rawName in
  [ {| c_id := "container-" +:+ nat_str index +:+ "-" +:+ underscore_spaces cleanName;
       c_name := cleanName;
       c_originalName := rawName;
       c_bounds := mkBox left top width height;
       c_normalized := mkBox (over left canvasWidth)
                             (over top canvasHeight)
                             (over width canvasWidth)
                             (over height canvasHeight) |} ].

Definition extractTemplateMetadata (psd : Psd) : TemplateMetadata :=
  let canvasWidth := dim_or (p_width psd) 1 in
  let canvasHeight := dim_or (p_height psd) 1 in
  let containers :=
    match templateGroup psd with
    | Some group =>
        match l_children group with
        | Some cs => collect_from (containerOf canvasWidth canvasHeight) 0 cs
        | None => []
        end
    | None => []
    end in
  {| canvas_width := canvasWidth;
     canvas_height := canvasHeight;
     containers := containers |}.

(** [containerMap]: containers indexed by name, a later container
    replacing an earlier one of the same name. *)
Definition containerMap (template : TemplateMetadata)
  : gmap string ContainerDefinition :=
  fold_left (fun m c => <[c_name c := c]> m) (containers template) ∅.

(** [`${layer.name}`] inside a template literal. *)
Definition name_text (o : option string) : string :=
  match o with Some s => s | None => "undefined" end.

(** The callback of the inner [forEach]: [issues] is the array the
    callback pushes to. *)
Definition checkLayer (container : ContainerDefinition)
    (issues : list ValidationIssue) (layer : Layer) : list ValidationIssue :=
  match l_top layer, l_left layer, l_bottom layer, l_right layer with
  | Some ltop, Some lleft, Some lbottom, Some lright =>
      let containerRight := bx (c_bounds container) + bw (c_bounds container) in
      let containerBottom := by_ (c_bounds container) + bh (c_bounds container) in
      let isViolation :=
        (lleft <? bx (c_bounds container))
        || (ltop <? by_ (c_bounds container))
        || (containerRight <? lright)
        || (containerBottom <? lbottom) in
      if isViolation then
        issues ++
        [ {| layerName := str_or (l_name layer) "Untitled Layer";
             containerName := c_name container;
             issue_type := "PROCEDURAL_VIOLATION";
             message := "Layer '" +:+ name_text (l_name layer)
                        +:+ "' extends outside '" +:+ c_name container
                        +:+ "' container." |} ]
      else issues
  | _, _, _, _ => issues
  end.

(** The callback of the outer [forEach] over [psd.children]. *)
Definition checkGroup (cmap : gmap string ContainerDefinition)
    (issues : list ValidationIssue) (group : Layer) : list ValidationIssue :=
  if is_template group then issues
  else
    match l_name group with
    | Some EmptyString | None => issues
    | Some name =>
        match cmap !! name with
        | Some container =>
            fold_left (checkLayer container) (nullish (l_children group) []) issues
        | None => issues
        end
    end.

Definition mapLayersToContainers (psd : Psd) (template : TemplateMetadata)
  : DesignValidationReport :=
  let issues :=
    fold_left (checkGroup (containerMap template)) (nullish (p_children psd) []) [] in
  {| isValid := (length issues =? 0)%nat; issues := issues |}.

Section Compositor.
Variables (w h : Q) (psd : Psd) (preview : option string).

(** The generative placeholder.  [createLinearGradient] raises a
    TypeError on a coordinate that is not finite; the coordinates here
    are finite. *)
Definition drawGenerative (layer : TransformedLayer) (ctx : Ctx) : result Ctx :=
  let gx := bx (t_coords layer) in
  let gy := by_ (t_coords layer) in
  let gw := bw (t_coords layer) in
  let gh := bh (t_coords layer) in
  ctx <- emit (OpGlobalAlpha (t_opacity layer)) ctx ;;
  if str_truthy preview then
    ctx <- emit (OpFillStyle "rgba(192, 132, 252, 0.2)") ctx ;;
    ctx <- emit (OpStrokeStyle "rgba(192, 132, 252, 0.8)") ctx ;;
    ctx <- emit (OpLineWidth 1%Q) ctx ;;
    ctx <- emit (OpFillRect gx gy gw gh) ctx ;;
    ctx <- emit (OpStrokeRect gx gy gw gh) ctx ;;
    ctx <- emit (OpFillStyle "#e9d5ff") ctx ;;
    ctx <- emit (OpFont "10px monospace") ctx ;;
    emit (OpFillText "AI GEN" (gx + 4)%Q (gy + 12)%Q) ctx
  else
    ctx <- emit (OpGradientFill gx gy (gx + gw)%Q (gy + gh)%Q
                   [(0%Q, "rgba(99, 102, 241, 0.3)");
                    (1%Q, "rgba(168, 85, 247, 0.3)")]) ctx ;;
    ctx <- emit (OpFillRect gx gy gw gh) ctx ;;
    ctx <- emit (OpStrokeStyle "rgba(168, 85, 247, 0.5)") ctx ;;
    emit (OpStrokeRect gx gy gw gh) ctx.

(** A standard pixel layer, sourced from the native tree. *)
Definition drawPixels (layer : TransformedLayer) (ctx : Ctx) : result Ctx :=
  originalLayer <- findLayerByPath psd (t_id layer) ;;
  match originalLayer with
  | Some original =>
      match l_canvas original with
      | Some source =>
          let lw := bw (t_coords layer) in
          let lh := bh (t_coords layer) in
          ctx <- emit (OpGlobalAlpha (t_opacity layer)) ctx ;;
          let cx := (bx (t_coords layer) + lw / 2)%Q in
          let cy := (by_ (t_coords layer) + lh / 2)%Q in
          ctx <- emit (OpTranslate cx cy) ctx ;;
          ctx <- (if q_truthy (t_rotation layer)
                  then emit (OpRotate (nullish (t_rotation layer) 0%Q)) ctx
                  else Ok ctx) ;;
          try_catch (drawImage source (- lw / 2)%Q (- lh / 2)%Q lw lh ctx)
                    (fun _ => Ok ctx)
      | None => Ok ctx
      end
  | None => Ok ctx
  end.

(** The body of the loop of [drawLayers] for one layer. *)
Fixpoint drawLayer (layer : TransformedLayer) (ctx : Ctx) : result Ctx :=
  let c := t_coords layer in
  if Qlt_bool w (bx c) || Qlt_bool h (by_ c)
     || Qlt_bool (bx c + bw c)%Q 0%Q || Qlt_bool (by_ c + bh c)%Q 0%Q
  then Ok ctx
  else if t_isVisible layer then
    ctx <- emit OpSave ctx ;;
    ctx <- match t_type layer, t_children layer with
           | KGroup, Some children => for_reverse drawLayer children ctx
           | KGenerative, _ => drawGenerative layer ctx
           | _, _ => drawPixels layer ctx
           end ;;
    emit OpRestore ctx
  else Ok ctx.

Definition drawLayers (layers : list TransformedLayer) (ctx : Ctx) : result Ctx :=
  for_reverse drawLayer layers ctx.
End Compositor.

(** [has_context]: whether [canvas.getContext('2d')] yields a context.
    [payload] and [psd] may be null, which the function tests first. *)
Definition compositePayloadToCanvas (has_context : bool)
    (payload : option TransformedPayload) (psd : option Psd)
  : result (option Snapshot) :=
  match payload, psd with
  | Some payload, Some psd =>
      let w := tw (target payload) in
      let h := th (target payload) in
      if negb has_context then Ok None
      else
        ctx <- emit (OpFillStyle "#0f172a") [] ;;
        ctx <- emit (OpFillRect 0%Q 0%Q w h) ctx ;;
        ctx <- drawLayers w h psd (previewUrl payload) (layers payload) ctx ;;
        Ok (Some {| snap_mime := "image/jpeg";
                    snap_quality := Some (9 # 10)%Q;
                    snap_width := w;
                    snap_height := h;
                    snap_ops := ctx |})
  | _, _ => Ok None
  end.

End V1.

(** ** Second copy of the service *)

Module V2.

Fixpoint cleanNode (parentId : string) (layer : Layer) (index : nat)
  : list SerializableLayer :=
  let id := parentId +:+ "-" +:+ nat_str index in
  [ {| s_id := id;
       s_name := str_or (l_name layer) ("Layer " +:+ nat_str index);
       s_type := match l_children layer with Some _ => KGroup | None => KLayer end;
       s_isVisible := negb (nullish (l_hidden layer) false);
       s_opacity := match l_opacity layer with
                    | Some o => ratio o 255
                    | None => 1%Q
                    end;
       s_coords := mkBox (z_or (l_left layer) 0) (z_or (l_top layer) 0)
                         (z_or (l_right layer) 0 - z_or (l_left layer) 0)
                         (z_or (l_bottom layer) 0 - z_or (l_top layer) 0);
       s_children :=
         match l_children layer with
         | Some cs => Some (collect_from (cleanNode id) 0 cs)
         | None => None
         end |} ].

(** [layers.map(...)], called with the default [parentId = 'root'] at
    the top. *)
Definition getCleanLayerTree (layers : list Layer) (parentId : string)
  : list SerializableLayer :=
  collect_from (cleanNode parentId) 0 layers.

Fixpoint walk (indices : list jsnum) (currentLayers : option (list Layer))
    (currentLayer : option Layer) : result (option Layer) :=
  match indices with
  | [] => Ok currentLayer
  | idx :: rest =>
      match currentLayers with
      | None => Ok None
      | Some arr =>
          if ge_length idx (length arr) then Ok None
          else
            let currentLayer := Js.index arr idx in
            currentLayers <- prop_children currentLayer ;;
            walk rest currentLayers currentLayer
      end
  end.

Definition findLayerByPath (psd : Psd) (layerId : string) : result (option Layer) :=
  match layerId with
  | EmptyString => Ok None
  | _ =>
      let indices := map parseInt10 (tail (split "-" layerId)) in
      walk indices (p_children psd) None
  end.

Definition templateGroup (psd : Psd) : option Layer :=
  match p_children psd with
  | Some cs => List.find is_template cs
  | None => None
  end.

Definition containerOf (canvasWidth canvasHeight : Q) (child : Layer) (index : nat)
  : list ContainerDefinition :=
  let top := nullish (l_top child) 0 in
  let left := nullish (l_left child) 0 in
  let bottom := nullish (l_bottom child) 0 in
  let right := nullish (l_right child) 0 in
  let width := right - left in
  let height := bottom - top in
  let rawName := str_or (l_name child) ("Container " +:+ nat_str index) in
  let cleanName := strip_bangs rawName in
  [ {| c_id := "container-" +:+ nat_str index;
       c_name := cleanName;
       c_originalName := rawName;
       c_bounds := mkBox left top width height;
       c_normalized := mkBox (over left canvasWidth)
                             (over top canvasHeight)
                             (over width canvasWidth)
                             (over height canvasHeight) |} ].

Definition extractTemplateMetadata (psd : Psd) : TemplateMetadata :=
  let canvasWidth := dim_or (p_width psd) 1 in
  let canvasHeight := dim_or (p_height psd) 1 in
  let containers :=
    match templateGroup psd with
    | Some group =>
        match l_children group with
        | Some cs => collect_from (containerOf canvasWidth canvasHeight) 0 cs
        | None => []
        end
    | None => []
    end in
  {| canvas_width := canvasWidth;
     canvas_height := canvasHeight;
     containers := containers |}.

(** The reduced validator: it only reports a document without
    children; [template] is not consulted. *)
Definition mapLayersToContainers (psd : Psd) (template : TemplateMetadata)
  : DesignValidationReport :=
  let designRoot :=
    match p_children psd with
    | Some cs => List.find (fun c => negb (is_template c)) cs
    | None => None
    end in
  let noChildren :=
    match p_children psd with
    | Some cs => (length cs =? 0)%nat
    | None => true
    end in
  let issues :=
    match designRoot with
    | None =>
        if noChildren then
          [ {| layerName := "Root";
               containerName := "Global";
               issue_type := "PROCEDURAL_VIOLATION";
               message := "PSD appears empty or missing design layers." |} ]
        else []
    | Some _ => []
    end in
  {| isValid := (length issues =? 0)%nat; issues := issues |}.

Section Compositor.
Variables (targetX targetY : Q) (psd : Psd).

Definition drawGenerative (layer : TransformedLayer) (ctx : Ctx) : result Ctx :=
  ctx <- emit OpSave ctx ;;
  ctx <- emit (OpFillStyle "rgba(124, 58, 237, 0.3)") ctx ;;
  ctx <- emit (OpStrokeStyle "rgba(124, 58, 237, 0.8)") ctx ;;
  ctx <- emit (OpLineWidth 1%Q) ctx ;;
  let lx := (bx (t_coords layer) - targetX)%Q in
  let ly := (by_ (t_coords layer) - targetY)%Q in
  ctx <- emit (OpFillRect lx ly (bw (t_coords layer)) (bh (t_coords layer))) ctx ;;
  ctx <- emit (OpStrokeRect lx ly (bw (t_coords layer)) (bh (t_coords layer))) ctx ;;
  emit OpRestore ctx.

Definition drawPixels (layer : TransformedLayer) (ctx : Ctx) : result Ctx :=
  originalLayer <- findLayerByPath psd (t_id layer) ;;
  match originalLayer with
  | Some original =>
      match l_canvas original with
      | Some source =>
          ctx <- emit OpSave ctx ;;
          ctx <- emit (OpGlobalAlpha (t_opacity layer)) ctx ;;
          let lx := (bx (t_coords layer) - targetX)%Q in
          let ly := (by_ (t_coords layer) - targetY)%Q in
          let rot := q_or0 (t_rotation layer) in
          ctx <- (if negb (Qeq_bool rot 0)
                  then
                    let cx := (lx + bw (t_coords layer) / 2)%Q in
                    let cy := (ly + bh (t_coords layer) / 2)%Q in
                    ctx <- emit (OpTranslate cx cy) ctx ;;
                    ctx <- emit (OpRotate rot) ctx ;;
                    emit (OpTranslate (- cx)%Q (- cy)%Q) ctx
                  else Ok ctx) ;;
          ctx <- drawImage source lx ly (bw (t_coords layer)) (bh (t_coords layer)) ctx ;;
          emit OpRestore ctx
      | None => Ok ctx
      end
  | None => Ok ctx
  end.

Fixpoint drawLayer (layer : TransformedLayer) (ctx : Ctx) : result Ctx :=
  if negb (t_isVisible layer) then Ok ctx
  else
    ctx <- match t_type layer with
           | KGenerative => drawGenerative layer ctx
           | KGroup => Ok ctx
           | KLayer => drawPixels layer ctx
           end ;;
    match t_children layer with
    | Some children => for_reverse drawLayer children ctx
    | None => Ok ctx
    end.

Definition drawLayers (layers : list TransformedLayer) (ctx : Ctx) : result Ctx :=
  for_reverse drawLayer layers ctx.
End Compositor.

Definition compositePayloadToCanvas (has_context : bool)
    (payload : TransformedPayload) (psd : Psd) : result (option Snapshot) :=
  let w := tw (target payload) in
  let h := th (target payload) in
  if Qle_bool w 0 || Qle_bool h 0 then Ok None
  else if negb has_context then Ok None
  else
    let targetX := q_or0 (tx (target payload)) in
    let targetY := q_or0 (ty (target payload)) in
    ctx <- drawLayers targetX targetY psd (layers payload) [] ;;
    Ok (Some {| snap_mime := "image/png";
                snap_quality := None;
                snap_width := w;
                snap_height := h;
                snap_ops := ctx |}).

End V2.

(** ** Code both copies share word for word *)

Module Common.

(** *** Palette and theme *)

Record PaletteTheme : Type := mkTheme {
  theme_name : string;
  border : string;
  bg : string;
  text : string;
  dot : string
}.

Definition purple : PaletteTheme :=
  mkTheme "Purple" "border-purple-500" "bg-purple-500/20" "text-purple-200" "bg-purple-400".

Definition CONTAINER_PALETTE : list PaletteTheme :=
  [ purple;
    mkTheme "Orange" "border-orange-500" "bg-orange-500/20" "text-orange-200" "bg-orange-400";
    mkTheme "Blue" "border-blue-500" "bg-blue-500/20" "text-blue-200" "bg-blue-400";
    mkTheme "Pink" "border-pink-500" "bg-pink-500/20" "text-pink-200" "bg-pink-400";
    mkTheme "Teal" "border-teal-500" "bg-teal-500/20" "text-teal-200" "bg-teal-400";
    mkTheme "Amber" "border-amber-500" "bg-amber-500/20" "text-amber-200" "bg-amber-400";
    mkTheme "Rose" "border-rose-500" "bg-rose-500/20" "text-rose-200" "bg-rose-400";
    mkTheme "Indigo" "border-indigo-500" "bg-indigo-500/20" "text-indigo-200" "bg-indigo-400" ].

(** [c.toUpperCase()] on one ASCII character. *)
Definition upper_char (c : ascii) : ascii :=
  let n := N_of_ascii c in
  if (97 <=? n)%N && (n <=? 122)%N then ascii_of_N (n - 32) else c.

(** [s.toUpperCase()], for ASCII text.  JavaScript also maps letters
    outside ASCII, some of them to ASCII ones (U+017F to S); such
    characters are left as they are here, and what is stated about
    keywords in names is stated for ASCII names. *)
Fixpoint toUpperCase (s : string) : string :=
  match s with
  | EmptyString => EmptyString
  | String c r => String (upper_char c) (toUpperCase r)
  end.

Fixpoint starts_with (p s : string) : bool :=
  match p, s with
  | EmptyString, _ => true
  | String a p', String b s' => Ascii.eqb a b && starts_with p' s'
  | String _ _, EmptyString => false
  end.

(** [s.includes(sub)] *)
Fixpoint includes (s sub : string) : bool :=
  starts_with sub s
  || match s with
     | EmptyString => false
     | String _ r => includes r sub
     end.

(** [CONTAINER_PALETTE.find(t => t.name === n)] *)
Definition find_theme (n : string) : option PaletteTheme :=
  List.find (fun t => String.eqb (theme_name t) n) CONTAINER_PALETTE.

(** The theme after the semantic match and the index fallback; [None]
    is [undefined].  [index] is an integer and [%] keeps the sign of the
    dividend. *)
Definition pick_theme (name : string) (index : Z) : option PaletteTheme :=
  let upperName := toUpperCase name in
  let theme :=
    if includes upperName "BG" then find_theme "Purple"
    else if includes upperName "SYMBOL" then find_theme "Orange"
    else if includes upperName "COUNTER" then find_theme "Blue"
    else None in
  match theme with
  | Some t => Some t
  | None =>
      let paletteIndex := Z.rem index (Z.of_nat (length CONTAINER_PALETTE)) in
      Js.index CONTAINER_PALETTE (JDec paletteIndex 0)
  end.

(** [theme || CONTAINER_PALETTE[0]] *)
Definition or_first (theme : option PaletteTheme) : PaletteTheme :=
  match theme with
  | Some t => t
  | None => nullish (CONTAINER_PALETTE !! 0%nat) purple
  end.

Definition getSemanticTheme (name : string) (index : Z) : string :=
  let safeTheme := or_first (pick_theme name index) in
  border safeTheme +:+ " " +:+ bg safeTheme +:+ " " +:+ text safeTheme.

Definition getSemanticThemeObject (name : string) (index : Z) : PaletteTheme :=
  or_first (pick_theme name index).

(** *** Context factory *)

Record ContainerContext : Type := mkContext {
  ctx_containerName : string;
  ctx_bounds : Box Z;
  ctx_canvas_w : Q;
  ctx_canvas_h : Q
}.

Definition createContainerContext (template : TemplateMetadata) (containerName : string)
  : option ContainerContext :=
  match List.find (fun c => String.eqb (c_name c) containerName) (containers template) with
  | None => None
  | Some container =>
      Some {| ctx_containerName := c_name container;
              ctx_bounds := c_bounds container;
              ctx_canvas_w := canvas_width template;
              ctx_canvas_h := canvas_height template |}
  end.

(** *** Reading a document from a file *)

Record PSDParseOptions : Type := mkParseOptions {
  skipLayerImageData : option bool;
  skipThumbnail : option bool
}.

Record ReadOptions : Type := mkReadOptions {
  read_skipLayerImageData : bool;
  read_skipThumbnail : bool
}.

(** What a [catch] clause receives: an [Error] with its message, or
    some other value. *)
Inductive Thrown : Type :=
  | ThrownError (message : string)
  | ThrownOther.

(** What the file reader reports: [onload] with [reader.result], which
    is the bytes of an ArrayBuffer or something else, or [onerror] with
    the message of [reader.error] when there is one. *)
Inductive ReaderEvent : Type :=
  | OnLoad (result : option (list Byte.byte))
  | OnError (error : option string).

(** How the returned promise settles. *)
Inductive Settled : Type :=
  | Resolved (psd : Psd)
  | Rejected (message : string).

(** The message for a failure of the decoder. *)
Definition parseErrorMessage (error : Thrown) : string :=
  match error with
  | ThrownError message =>
      if includes message "Invalid signature" || includes message "Signature not found"
      then "Invalid file format. The file does not appear to be a valid Adobe Photoshop file."
      else if includes message "RangeError" || includes message "Out of bounds"
      then "The PSD file appears to be corrupted or truncated (Buffer out of bounds)."
      else "PSD Parsing Error: " +:+ message
  | ThrownOther => "Failed to parse PSD structure."
  end.

(** [parsePsdFile], as a function of the decoder [readPsd], of whether a
    file was given and of the event the reader ends with. *)
Definition parsePsdFile (readPsd : list Byte.byte -> ReadOptions -> Psd + Thrown)
    (file : bool) (options : PSDParseOptions) (event : ReaderEvent) : Settled :=
  if negb file then Rejected "No file provided for parsing."
  else
    match event with
    | OnLoad None => Rejected "FileReader failed to produce a valid ArrayBuffer."
    | OnLoad (Some []) => Rejected "The provided file is empty."
    | OnLoad (Some arrayBuffer) =>
        let readOptions :=
          {| read_skipLayerImageData := nullish (skipLayerImageData options) false;
             read_skipThumbnail := nullish (skipThumbnail options) true |} in
        match readPsd arrayBuffer readOptions with
        | inl psd => Resolved psd
        | inr error => Rejected (parseErrorMessage error)
        end
    | OnError error =>
        let msg := nullish error "Unknown IO error" in
        Rejected ("Failed to read file from disk: " +:+ msg)
    end.

End Common.

(** ** Specification-side definitions *)

(** Every character of [s] satisfies [p]. *)
Fixpoint all_chars (p : ascii -> bool) (s : string) : bool :=
  match s with
  | EmptyString => true
  | String c r => p c && all_chars p r
  end.

(** Occurrence of a node anywhere in a serialized forest. *)
Inductive tree_In (s : SerializableLayer) : list SerializableLayer -> Prop :=
  | tree_here forest : s ∈ forest -> tree_In s forest
  | tree_below parent cs forest :
      parent ∈ forest -> s_children parent = Some cs -> tree_In s cs ->
      tree_In s forest.

(** The native node reached from [layer] by a path of child indices. *)
Fixpoint sub_at (q : list nat) (layer : Layer) : option Layer :=
  match q with
  | [] => Some layer
  | j :: q' =>
      match l_children layer with
      | Some cs =>
          match cs !! j with
          | Some c => sub_at q' c
          | None => None
          end
      | None => None
      end
  end.

(** The native node at a non-empty path of child indices from the root. *)
Definition node_at (p : list nat) (layers : list Layer) : option Layer :=
  match p with
  | [] => None
  | i :: q =>
      match layers !! i with
      | Some l => sub_at q l
      | None => None
      end
  end.

(** The dot-joined id of an index path. *)
Definition path_id (p : list nat) : string := fold_left V1.currentPath p EmptyString.

(** The number an index is decoded to. *)
Definition num (i : nat) : jsnum := JDec (Z.of_nat i) 0.

(** The layer has none of the four bounding-box fields. *)
Definition no_bounds (l : Layer) : Prop :=
  l_top l = None /\ l_left l = None /\ l_bottom l = None /\ l_right l = None.

(** The pixel box of a layer, a missing field counting as 0. *)
Definition pixel_box (l : Layer) : Box Z :=
  mkBox (nullish (l_left l) 0) (nullish (l_top l) 0)
        (nullish (l_right l) 0 - nullish (l_left l) 0)
        (nullish (l_bottom l) 0 - nullish (l_top l) 0).

(** The container the first extractor builds for one child. *)
Definition V1_container cw ch (child : Layer) (index : nat) : ContainerDefinition :=
  match V1.containerOf cw ch child index with
  | c :: _ => c
  | [] => mkContainer "" "" "" (mkBox 0 0 0 0) (mkBox 0%Q 0%Q 0%Q 0%Q)
  end.

(** The container the second extractor builds for one child. *)
Definition V2_container cw ch (child : Layer) (index : nat) : ContainerDefinition :=
  match V2.containerOf cw ch child index with
  | c :: _ => c
  | [] => mkContainer "" "" "" (mkBox 0 0 0 0) (mkBox 0%Q 0%Q 0%Q 0%Q)
  end.

(** The violation test, in the words of the contract. *)
Definition outside (c : ContainerDefinition) (l : Layer) : Prop :=
  exists t lf b r,
    l_top l = Some t /\ l_left l = Some lf /\ l_bottom l = Some b /\ l_right l = Some r /\
    (lf < bx (c_bounds c) \/ t < by_ (c_bounds c)
     \/ r > bx (c_bounds c) + bw (c_bounds c)
     \/ b > by_ (c_bounds c) + bh (c_bounds c)).

Definition strictly_inside (c : ContainerDefinition) (l : Layer) : Prop :=
  exists t lf b r,
    l_top l = Some t /\ l_left l = Some lf /\ l_bottom l = Some b /\ l_right l = Some r /\
    bx (c_bounds c) < lf /\ by_ (c_bounds c) < t
    /\ r < bx (c_bounds c) + bw (c_bounds c)
    /\ b < by_ (c_bounds c) + bh (c_bounds c).

(** The container a top-level group is validated against. *)
Definition design_container (template : TemplateMetadata) (group : Layer)
  : option ContainerDefinition :=
  if is_template group then None
  else match l_name group with
       | Some EmptyString | None => None
       | Some name => V1.containerMap template !! name
       end.

(** The issue the first validator raises for a layer outside its container. *)
Definition issue_of (c : ContainerDefinition) (l : Layer) : ValidationIssue :=
  {| layerName := str_or (l_name l) "Untitled Layer";
     containerName := c_name c;
     issue_type := "PROCEDURAL_VIOLATION";
     message := "Layer '" +:+ V1.name_text (l_name l)
                +:+ "' extends outside '" +:+ c_name c +:+ "' container." |}.

(** A drawing step that always completes and only adds calls, the same
    ones whatever was drawn before. *)
Definition appends (f : Ctx -> result Ctx) : Prop :=
  exists ops, forall ctx, f ctx = Ok (ctx ++ ops).

(** The calls one layer of the first copy's compositor adds. *)
Definition V1_layer_ops (w h : Q) (psd : Psd) (preview : option string)
    (layer : TransformedLayer) : list DrawOp :=
  match V1.drawLayer w h psd preview layer [] with
  | Ok ops => ops
  | Throw _ => []
  end.

(** *** The painting plan of the contract

    The calls the compositor is to make, written as lists: the layers
    of a level are taken last to first, a hidden or culled layer gives
    nothing, a group gives the plan of its children, a generative layer
    its placeholder, any other layer the pixels found at its id. *)














(** The id the second copy gives to an index path. *)
Definition path_id2 (p : list nat) : string :=
  fold_left (fun parentId index => parentId +:+ "-" +:+ nat_str index) p "root".

(** [c] is not the separator. *)
Definition not_char (sep c : ascii) : bool := negb (Ascii.eqb c sep).

(** The nesting depth of saved states after a run of calls, starting
    from [depth]; [None] when a restore has no matching save. *)
Fixpoint save_depth (ops : list DrawOp) (depth : nat) : option nat :=
  match ops with
  | [] => Some depth
  | OpSave :: rest => save_depth rest (S depth)
  | OpRestore :: rest =>
      match depth with
      | O => None
      | S d => save_depth rest d
      end
  | _ :: rest => save_depth rest depth
  end.

(** Every save is matched by a later restore and conversely. *)
Definition balanced (ops : list DrawOp) : Prop :=
  forall depth, save_depth ops depth = Some depth.

(** A drawing step that always completes and only adds a balanced run of
    calls. *)
Definition appends_balanced (f : Ctx -> result Ctx) : Prop :=
  exists ops, balanced ops /\ forall ctx, f ctx = Ok (ctx ++ ops).

(** A 7-bit character; on text made of these [Common.toUpperCase] is
    the JavaScript one. *)
Definition is_ascii (c : ascii) : bool := (N_of_ascii c <? 128)%N.

(** ** Sample documents and payloads *)

Definition sample_leaf (name : string) (t l b r : Z) (cv : option Canvas) : Layer :=
  mkLayer (Some name) (Some t) (Some l) (Some b) (Some r) None None cv None.

Definition sample_group (name : string) (kids : list Layer) : Layer :=
  mkLayer (Some name) None None None None None None None (Some kids).

Definition sample_template : Layer :=
  sample_group "!!TEMPLATE" [sample_leaf "!!BG" 0 0 100 200 None].

(** The design group BG holds a layer reaching above its container and
    a layer whose pixel surface is empty. *)
Definition sample_design : Layer :=
  sample_group "BG"
    [sample_leaf "over" (-5) 0 50 50 (Some (mkCanvas 4 4));
     sample_leaf "empty" 10 10 20 20 (Some (mkCanvas 0 0));
     sample_group "!!TEMPLATE" []].

Definition sample_layers : list Layer := [sample_template; sample_design].

Definition sample_doc : Psd :=
  mkPsd (Some 200%Q) (Some 100%Q) (Some sample_layers).

(** The serialized form of the layer "over" in the first copy. *)
Definition sample_node : SerializableLayer :=
  {| s_id := "1.0";
     s_name := "over";
     s_type := KLayer;
     s_isVisible := true;
     s_opacity := ratio 255 255;
     s_coords := mkBox 0 (-5) 50 55;
     s_children := None |}.

Definition sample_pixels (id : string) : TransformedLayer :=
  mkTransformed id KLayer true 1%Q (mkBox 0%Q 0%Q 10%Q 10%Q) None None.

Definition sample_target (w h : Q) : Target := mkTarget w h None None.

(** A template whose children lack bounding-box fields: the first has
    none, the second has only [left] and [bottom]. *)
Definition sparse_template : Layer :=
  sample_group "!!TEMPLATE"
    [ mkLayer (Some "!!A") None None None None None None None None;
      mkLayer None None (Some 10) (Some 50) None None None None None ].

Definition sparse_doc : Psd := mkPsd None None (Some [sparse_template]).




(** ** Supporting lemmas *)

Ltac ascii_cases c := destruct c as [[|] [|] [|] [|] [|] [|] [|] [|]].

Lemma digit_not_space c : is_digit c = true -> is_space c = false.
Proof. ascii_cases c; vm_compute; congruence. Qed.

Lemma digit_not_marker c :
  is_digit c = true ->
  Ascii.eqb c "." = false /\ Ascii.eqb c "e" = false /\ Ascii.eqb c "E" = false
  /\ Ascii.eqb c "x" = false /\ Ascii.eqb c "X" = false
  /\ Ascii.eqb c "o" = false /\ Ascii.eqb c "O" = false
  /\ Ascii.eqb c "b" = false /\ Ascii.eqb c "B" = false
  /\ Ascii.eqb c "-" = false /\ Ascii.eqb c "+" = false /\ Ascii.eqb c "I" = false.
Proof. ascii_cases c; vm_compute; intuition congruence. Qed.

Lemma digit_char_val d :
  (d < 10)%nat -> digit_val 10 (digit_char d) = Some (Z.of_nat d).
Proof.
  intros H. do 10 (destruct d as [|d]; [reflexivity|]). lia.
Qed.

Lemma digit_char_is_digit d : (d < 10)%nat -> is_digit (digit_char d) = true.
Proof. intros H. unfold is_digit. now rewrite digit_char_val. Qed.

Lemma nat_str_aux_S fuel n acc :
  nat_str_aux (S fuel) n acc =
  if (n <? 10)%nat then String (digit_char (n mod 10)) acc
  else nat_str_aux fuel (n / 10) (String (digit_char (n mod 10)) acc).
Proof. reflexivity. Qed.

Lemma nat_str_aux_digits fuel : forall n acc,
  all_chars is_digit acc = true ->
  all_chars is_digit (nat_str_aux fuel n acc) = true.
Proof.
  induction fuel as [|fuel IH]; intros n acc Hacc; [exact Hacc|].
  rewrite nat_str_aux_S.
  assert (Hd : all_chars is_digit (String (digit_char (n mod 10)) acc) = true).
  { cbn [all_chars]. rewrite digit_char_is_digit, Hacc; [done|].
    apply Nat.mod_upper_bound. lia. }
  destruct (n <? 10)%nat; [exact Hd | by apply IH].
Qed.

Lemma digits_acc_cons radix c r a :
  digits_acc radix (String c r) a =
  match digit_val radix c with
  | Some d => digits_acc radix r (Z.of_N radix * a + d)
  | None => None
  end.
Proof. reflexivity. Qed.

Lemma nat_str_aux_value fuel : forall n acc,
  (n < fuel)%nat ->
  exists k, 0 <= k /\
    forall a, digits_acc 10 (nat_str_aux fuel n acc) a
              = digits_acc 10 acc (a * 10 ^ k + Z.of_nat n).
Proof.
  induction fuel as [|fuel IH]; intros n acc Hn; [lia|].
  rewrite nat_str_aux_S. destruct (n <? 10)%nat eqn:Hlt.
  - apply Nat.ltb_lt in Hlt. exists 1. split; [lia|]. intros a.
    rewrite digits_acc_cons, Nat.mod_small by lia. rewrite digit_char_val by lia.
    f_equal. lia.
  - apply Nat.ltb_ge in Hlt.
    destruct (IH (n / 10)%nat (String (digit_char (n mod 10)) acc)) as (k & Hk & E).
    { assert (n / 10 < n)%nat by (apply Nat.div_lt; lia). lia. }
    exists (k + 1). split; [lia|]. intros a. rewrite E, digits_acc_cons.
    rewrite digit_char_val by (apply Nat.mod_upper_bound; lia).
    f_equal. rewrite Z.pow_add_r by lia.
    pose proof (Nat.div_mod_eq n 10) as D.
    replace (Z.of_nat n) with (10 * Z.of_nat (n / 10) + Z.of_nat (n mod 10)) at 2 by lia.
    lia.
Qed.

Lemma nat_str_aux_nonempty fuel : forall m acc,
  acc <> EmptyString -> nat_str_aux fuel m acc <> EmptyString.
Proof.
  induction fuel as [|fuel IH]; intros m acc Hacc; [exact Hacc|].
  rewrite nat_str_aux_S.
  destruct (m <? 10)%nat; [done|]. by apply IH.
Qed.

Lemma nat_str_nonempty n : nat_str n <> EmptyString.
Proof.
  unfold nat_str. rewrite nat_str_aux_S. destruct (n <? 10)%nat; [done|].
  by apply nat_str_aux_nonempty.
Qed.

Lemma nat_str_digits n : all_chars is_digit (nat_str n) = true.
Proof. by apply nat_str_aux_digits. Qed.

Lemma nat_str_value n : digits 10 (nat_str n) = Some (Z.of_nat n).
Proof.
  unfold digits. pose proof (nat_str_nonempty n) as Hne.
  destruct (nat_str n) eqn:E; [done|]. rewrite <- E.
  destruct (nat_str_aux_value (S n) n EmptyString) as (k & _ & Hk); [lia|].
  unfold nat_str. rewrite Hk. cbn [digits_acc]. f_equal.
Qed.

Lemma trim_start_digits s : all_chars is_digit s = true -> trim_start s = s.
Proof.
  destruct s as [|c r]; cbn [trim_start all_chars]; [done|]. intros [Hc _]%andb_prop.
  by rewrite digit_not_space.
Qed.

Lemma trim_end_digits s : all_chars is_digit s = true -> trim_end s = s.
Proof.
  induction s as [|c r IH]; cbn [trim_end all_chars]; [done|]. intros [Hc Hr]%andb_prop.
  rewrite IH by done. rewrite digit_not_space by done. by destruct r.
Qed.

Lemma break_at_digits p s :
  (forall c, is_digit c = true -> p c = false) ->
  all_chars is_digit s = true -> break_at p s = (s, None).
Proof.
  intros Hp. induction s as [|c r IH]; cbn [break_at all_chars]; [done|].
  intros [Hc Hr]%andb_prop.
  rewrite Hp by done. by rewrite IH.
Qed.

Lemma split_digits sep s :
  (forall c, is_digit c = true -> Ascii.eqb c sep = false) ->
  all_chars is_digit s = true -> split sep s = [s].
Proof.
  intros Hp. induction s as [|c r IH]; cbn [split all_chars]; [done|].
  intros [Hc Hr]%andb_prop.
  rewrite Hp by done. by rewrite IH.
Qed.

Lemma split_nonempty sep s : split sep s <> [].
Proof.
  destruct s as [|c r]; cbn [split]; [done|].
  destruct (Ascii.eqb c sep); [done|]. by destruct (split sep r).
Qed.

Lemma split_app sep a b :
  split sep (a +:+ String sep b) = split sep a ++ split sep b.
Proof.
  induction a as [|c r IH]; simpl.
  - by rewrite Ascii.eqb_refl.
  - destruct (Ascii.eqb c sep); [by rewrite IH|].
    rewrite IH. pose proof (split_nonempty sep r).
    by destruct (split sep r).
Qed.

Lemma radix_literal_digits s :
  all_chars is_digit s = true -> radix_literal s = None.
Proof.
  destruct s as [|c [|k r]]; [done| |].
  - intros _. by ascii_cases c.
  - cbn [all_chars]. intros [_ [Hk _]%andb_prop]%andb_prop.
    destruct (digit_not_marker k Hk) as (_ & _ & _ & Hx & HX & Ho & HO & Hb & HB & _).
    ascii_cases c; try reflexivity.
    cbn [radix_literal]. by rewrite Hx, HX, Ho, HO, Hb, HB.
Qed.

Lemma signed_digits c r : is_digit c = true -> signed (String c r) = (false, String c r).
Proof. intros H. ascii_cases c; try reflexivity; vm_compute in H; congruence. Qed.

Lemma not_infinity_digits c r : is_digit c = true -> String.eqb (String c r) "Infinity" = false.
Proof.
  intros H. destruct (digit_not_marker c H) as (_&_&_&_&_&_&_&_&_&_&_&HI).
  cbn [String.eqb]. by rewrite HI.
Qed.

Lemma Number_digits s v :
  all_chars is_digit s = true -> digits 10 s = Some v -> Number s = JDec v 0.
Proof.
  intros Hs Hv. unfold Number, trim.
  rewrite trim_start_digits, trim_end_digits by done.
  destruct s as [|c r]; [done|].
  rewrite radix_literal_digits by done.
  pose proof Hs as [Hc Hr]%andb_prop.
  rewrite signed_digits, not_infinity_digits by done.
  unfold decimal_literal.
  rewrite break_at_digits; [|intros k Hk; destruct (digit_not_marker k Hk) as (_ & -> & -> & _); done|done].
  rewrite break_at_digits; [|intros k Hk; destruct (digit_not_marker k Hk) as (-> & _); done|done].
  rewrite Hv. reflexivity.
Qed.

Lemma Number_nat_str n : Number (nat_str n) = JDec (Z.of_nat n) 0.
Proof. apply Number_digits; [apply nat_str_digits | apply nat_str_value]. Qed.

Lemma as_index_nat n : as_index (JDec (Z.of_nat n) 0) = Some n.
Proof.
  unfold as_index. destruct (Z.ltb_spec (Z.of_nat n) 0); [lia|].
  cbn [Z.leb Z.compare]. f_equal. rewrite Z.pow_0_r. lia.
Qed.

Lemma Layer_forest_ind (P : Layer -> Prop) :
  (forall l, (forall cs, l_children l = Some cs -> Forall P cs) -> P l) ->
  forall l, P l.
Proof.
  intros H. fix IH 1. intros [n t lf b r h o cv [kids|]]; apply H; simpl;
    intros cs Hcs; [|discriminate].
  assert (HF : Forall P kids).
  { clear Hcs. induction kids as [|c kids IHkids]; constructor;
      [apply IH | exact IHkids]. }
  by injection Hcs as <-.
Qed.

Lemma tree_In_app s a b : tree_In s (a ++ b) <-> tree_In s a \/ tree_In s b.
Proof.
  split.
  - inversion 1 as [f Hin|parent cs f Hin Hcs Hs]; subst.
    + apply elem_of_app in Hin as [?|?]; [left|right]; by constructor.
    + apply elem_of_app in Hin as [?|?]; [left|right]; by econstructor 2.
  - intros [H|H]; inversion H as [f Hin|parent cs f Hin Hcs Hs]; subst.
    + constructor. set_solver.
    + econstructor 2; [|done..]. set_solver.
    + constructor. set_solver.
    + econstructor 2; [|done..]. set_solver.
Qed.

Lemma tree_In_nil s : ~ tree_In s [].
Proof. inversion 1; subst; set_solver. Qed.

Lemma tree_In_collect {A} (f : A -> nat -> list SerializableLayer) s : forall xs k,
  tree_In s (collect_from f k xs) ->
  exists j x, xs !! j = Some x /\ tree_In s (f x (k + j)%nat).
Proof.
  induction xs as [|x xs IH]; intros k; cbn [collect_from].
  - intros []%tree_In_nil.
  - intros [H|H]%tree_In_app.
    + exists 0%nat, x. split; [done|]. by rewrite Nat.add_0_r.
    + destruct (IH _ H) as (j & y & Hj & Hs). exists (S j), y. split; [done|].
      by replace (k + S j)%nat with (S k + j)%nat by lia.
Qed.

Lemma collect_tree_In {A} (f : A -> nat -> list SerializableLayer) s : forall xs k j x,
  xs !! j = Some x -> tree_In s (f x (k + j)%nat) ->
  tree_In s (collect_from f k xs).
Proof.
  induction xs as [|y xs IH]; intros k j x Hj Hs; [done|].
  cbn [collect_from]. apply tree_In_app. destruct j as [|j].
  - left. simplify_eq/=. by rewrite Nat.add_0_r in Hs.
  - right. apply (IH (S k) j x); [done|].
    by replace (S k + j)%nat with (k + S j)%nat by lia.
Qed.

Lemma V1_cleanNode_eq path child index :
  V1.cleanNode path child index =
  if is_template child then []
  else
    [ {| s_id := V1.currentPath path index;
         s_name := str_or (l_name child) ("Layer " +:+ nat_str index);
         s_type := match l_children child with Some _ => KGroup | None => KLayer end;
         s_isVisible := negb (nullish (l_hidden child) false);
         s_opacity := ratio (nullish (l_opacity child) 255) 255;
         s_coords := mkBox (nullish (l_left child) 0) (nullish (l_top child) 0)
                       (nullish (l_right child) 0 - nullish (l_left child) 0)
                       (nullish (l_bottom child) 0 - nullish (l_top child) 0);
         s_children :=
           match l_children child with
           | Some cs => Some (V1.getCleanLayerTree cs (V1.currentPath path index))
           | None => None
           end |} ].
Proof. by destruct child. Qed.

Lemma path_id_snoc p i : path_id (p ++ [i]) = V1.currentPath (path_id p) i.
Proof. unfold path_id. by rewrite fold_left_app. Qed.

(** Every node of the serialization of [layer] (placed at index [i]
    under the path [p]) is built from a native descendant of [layer],
    at the path its id spells. *)
Lemma V1_cleanNode_origin : forall layer p i s,
  tree_In s (V1.cleanNode (path_id p) layer i) ->
  exists q n pre j,
    sub_at q layer = Some n /\ p ++ i :: q = pre ++ [j] /\
    V1.cleanNode (path_id pre) n j = [s].
Proof.
  induction layer as [layer IH] using Layer_forest_ind. intros p i s Hs.
  rewrite V1_cleanNode_eq in Hs. destruct (is_template layer) eqn:Ht.
  { by apply tree_In_nil in Hs. }
  inversion Hs as [f Hin|parent cs f Hin Hcs Hsub]; subst.
  - apply list_elem_of_singleton in Hin. subst s.
    exists [], layer, p, i. split_and!; [done..|].
    by rewrite V1_cleanNode_eq, Ht.
  - apply list_elem_of_singleton in Hin. subst parent. cbn [s_children] in Hcs.
    destruct (l_children layer) as [kids|] eqn:Hk; [|done].
    injection Hcs as <-. unfold V1.getCleanLayerTree in Hsub.
    rewrite <- path_id_snoc in Hsub.
    apply tree_In_collect in Hsub as (j & c & Hj & Hc).
    specialize (IH kids eq_refl).
    rewrite Forall_forall in IH.
    destruct (IH c (list_elem_of_lookup_2 _ _ _ Hj) _ _ _ Hc)
      as (q & n & pre & j' & Hq & Hp & Hn).
    exists (j :: q), n, pre, j'. split_and!; [|by rewrite <- Hp, <- app_assoc|done].
    cbn [sub_at]. by rewrite Hk, Hj.
Qed.

Lemma path_id_nonempty p : p <> [] -> path_id p <> EmptyString.
Proof.
  destruct p as [|i p _] using rev_ind; [done|]. intros _.
  rewrite path_id_snoc. unfold V1.currentPath.
  destruct (path_id p) as [|c r]; [apply nat_str_nonempty|done].
Qed.

Lemma digit_not_dot c : is_digit c = true -> Ascii.eqb c "." = false.
Proof. intros H. by destruct (digit_not_marker c H) as (-> & _). Qed.

Lemma currentPath_nonempty path i :
  path <> EmptyString -> V1.currentPath path i = path +:+ String "." (nat_str i).
Proof. by destruct path. Qed.

Lemma decode_path_id p :
  p <> [] -> map Number (split "." (path_id p)) = map num p.
Proof.
  induction p as [|i p IH] using rev_ind; [done|]. intros _.
  rewrite path_id_snoc, map_app. destruct p as [|k p].
  - cbn [map app path_id fold_left V1.currentPath].
    rewrite split_digits by auto using digit_not_dot, nat_str_digits.
    cbn [map]. by rewrite Number_nat_str.
  - rewrite currentPath_nonempty by by apply path_id_nonempty.
    rewrite split_app, map_app, IH by done.
    rewrite split_digits by auto using digit_not_dot, nat_str_digits.
    cbn [map]. by rewrite Number_nat_str.
Qed.

Lemma index_num {A} (arr : list A) i : Js.index arr (num i) = arr !! i.
Proof. unfold Js.index, num. by rewrite as_index_nat. Qed.

Lemma V1_walk_sub q : forall l,
  V1.walk (map num q) (l_children l) (Some l) = Ok (sub_at q l).
Proof.
  induction q as [|j q IH]; intros l; [done|].
  cbn [map V1.walk sub_at]. destruct (l_children l) as [cs|]; [|done].
  rewrite index_num. destruct (cs !! j) as [c|]; [|done].
  cbn [prop_children bind]. apply IH.
Qed.

Lemma V1_walk_path p layers t :
  p <> [] -> V1.walk (map num p) (Some layers) t = Ok (node_at p layers).
Proof.
  destruct p as [|i q]; [done|]. intros _.
  cbn [map V1.walk node_at]. rewrite index_num.
  destruct (layers !! i) as [l|]; [|done].
  cbn [prop_children bind]. apply V1_walk_sub.
Qed.

Lemma V1_findLayerByPath_path psd layers p :
  p_children psd = Some layers -> p <> [] ->
  V1.findLayerByPath psd (path_id p) = Ok (node_at p layers).
Proof.
  intros Hc Hp. unfold V1.findLayerByPath.
  pose proof (path_id_nonempty p Hp).
  destruct (path_id p) eqn:E; [done|]. rewrite <- E.
  rewrite decode_path_id, Hc by done. by apply V1_walk_path.
Qed.

Lemma V1_walk_total indices : forall cur t, exists r, V1.walk indices cur t = Ok r.
Proof.
  induction indices as [|i rest IH]; intros cur t; cbn [V1.walk]; [eauto|].
  destruct cur as [arr|]; [|eauto].
  destruct (Js.index arr i) as [l|]; [|eauto].
  cbn [prop_children bind]. apply IH.
Qed.

Lemma V1_walk_found indices : forall cur t n,
  indices <> [] ->
  V1.walk indices cur t = Ok (Some n) ->
  exists p layers,
    cur = Some layers /\ Forall2 (fun x i => as_index x = Some i) indices p /\
    node_at p layers = Some n.
Proof.
  assert (G : forall indices l n,
    V1.walk indices (l_children l) (Some l) = Ok (Some n) ->
    exists q, Forall2 (fun x i => as_index x = Some i) indices q /\ sub_at q l = Some n).
  { clear. induction indices as [|x rest IH]; intros l n; cbn [V1.walk].
    - intros [= <-]. exists []. by split; [constructor|].
    - destruct (l_children l) as [cs|] eqn:Hcs; [|done].
      unfold Js.index. destruct (as_index x) as [k|] eqn:Hx; [|done].
      destruct (cs !! k) as [c|] eqn:Hk; [|done]. cbn [prop_children bind].
      intros (q & Hq & Hsub)%IH. exists (k :: q). split; [by constructor|].
      cbn [sub_at]. by rewrite Hcs, Hk. }
  destruct indices as [|x rest]; [done|]. intros cur t n _. cbn [V1.walk].
  destruct cur as [layers|]; [|done].
  unfold Js.index. destruct (as_index x) as [k|] eqn:Hx; [|done].
  destruct (layers !! k) as [c|] eqn:Hk; [|done]. cbn [prop_children bind].
  intros (q & Hq & Hsub)%G. exists (k :: q), layers. split_and!; [done|by constructor|].
  cbn [node_at]. by rewrite Hk.
Qed.

Lemma V1_findLayerByPath_total psd pathId :
  exists r, V1.findLayerByPath psd pathId = Ok r.
Proof.
  unfold V1.findLayerByPath. destruct pathId; [eauto|]. apply V1_walk_total.
Qed.

Lemma V1_findLayerByPath_found psd pathId n :
  V1.findLayerByPath psd pathId = Ok (Some n) ->
  exists p layers,
    pathId <> EmptyString /\ p_children psd = Some layers /\
    Forall2 (fun seg i => as_index (Number seg) = Some i) (split "." pathId) p /\
    node_at p layers = Some n.
Proof.
  unfold V1.findLayerByPath. destruct pathId as [|c r]; [done|].
  intros H. apply V1_walk_found in H as (p & layers & Hc & HF & Hn).
  - exists p, layers. split_and!; [done..| |done].
    by apply Forall2_fmap_l in HF.
  - pose proof (split_nonempty "." (String c r)). by destruct (split "." (String c r)).
Qed.

Lemma as_index_NaN : as_index JNaN = None.
Proof. reflexivity. Qed.

Lemma V1_findLayerByPath_not_found psd pathId :
  pathId = EmptyString
  \/ (exists seg, seg ∈ split "." pathId /\ Number seg = JNaN)
  \/ (forall p layers,
        p_children psd = Some layers ->
        Forall2 (fun seg i => as_index (Number seg) = Some i) (split "." pathId) p ->
        node_at p layers = None) ->
  V1.findLayerByPath psd pathId = Ok None.
Proof.
  intros H. destruct (V1_findLayerByPath_total psd pathId) as [[n|] Hr]; [|done].
  exfalso. apply V1_findLayerByPath_found in Hr as (p & layers & Hne & Hc & HF & Hn).
  destruct H as [->|[(seg & Hin & Hnan)|H]]; [done| |].
  - apply list_elem_of_lookup in Hin as (k & Hk).
    destruct (Forall2_lookup_l _ _ _ _ _ HF Hk) as (i & _ & Hi).
    by rewrite Hnan in Hi.
  - by rewrite (H p layers Hc HF) in Hn.
Qed.

Lemma V1_cleanNode_native : forall layer path i s,
  tree_In s (V1.cleanNode path layer i) ->
  exists q n path' j, sub_at q layer = Some n /\ V1.cleanNode path' n j = [s].
Proof.
  induction layer as [layer IH] using Layer_forest_ind. intros path i s Hs.
  rewrite V1_cleanNode_eq in Hs. destruct (is_template layer) eqn:Ht.
  { by apply tree_In_nil in Hs. }
  inversion Hs as [f Hin|parent cs f Hin Hcs Hsub]; subst.
  - apply list_elem_of_singleton in Hin. subst s.
    exists [], layer, path, i. split; [done|].
    by rewrite V1_cleanNode_eq, Ht.
  - apply list_elem_of_singleton in Hin. subst parent. cbn [s_children] in Hcs.
    destruct (l_children layer) as [kids|] eqn:Hk; [|done].
    injection Hcs as <-. unfold V1.getCleanLayerTree in Hsub.
    apply tree_In_collect in Hsub as (j & c & Hj & Hc).
    specialize (IH kids eq_refl). rewrite Forall_forall in IH.
    destruct (IH c (list_elem_of_lookup_2 _ _ _ Hj) _ _ _ Hc) as (q & n & path' & j' & Hq & Hn).
    exists (j :: q), n, path', j'. split; [|done].
    cbn [sub_at]. by rewrite Hk, Hj.
Qed.

Lemma str_or_not_template o d :
  (match o with Some n => String.eqb n "!!TEMPLATE" | None => false end) = false ->
  d <> "!!TEMPLATE" -> str_or o d <> "!!TEMPLATE".
Proof.
  destruct o as [[|c r]|]; cbn [str_or]; [done| |done].
  intros H _ E. by rewrite E in H.
Qed.

Lemma V1_no_template_node layers path s :
  tree_In s (V1.getCleanLayerTree layers path) ->
  s_name s <> "!!TEMPLATE" /\
  exists i c q n path' j,
    layers !! i = Some c /\ sub_at q c = Some n /\
    is_template n = false /\ V1.cleanNode path' n j = [s].
Proof.
  intros Hs. unfold V1.getCleanLayerTree in Hs.
  apply tree_In_collect in Hs as (i & c & Hi & Hs).
  apply V1_cleanNode_native in Hs as (q & n & path' & j & Hq & Hn).
  rewrite V1_cleanNode_eq in Hn. destruct (is_template n) eqn:Ht; [done|].
  split.
  - injection Hn as <-. cbn [s_name]. apply str_or_not_template; [exact Ht|done].
  - exists i, c, q, n, path', j. split_and!; [done..|].
    by rewrite V1_cleanNode_eq, Ht.
Qed.

Lemma collect_singletons {A B} (f : A -> nat -> list B) (g : A -> nat -> B) :
  (forall x j, f x j = [g x j]) ->
  forall xs k,
    length (collect_from f k xs) = length xs /\
    forall i x, xs !! i = Some x -> collect_from f k xs !! i = Some (g x (k + i)%nat).
Proof.
  intros Hf. induction xs as [|y xs IH]; intros k; cbn [collect_from]; [done|].
  rewrite Hf. destruct (IH (S k)) as [Hl Hi]. split; [by cbn; rewrite Hl|].
  intros [|i] x Hx.
  - cbn in Hx. simplify_eq. cbn. by rewrite Nat.add_0_r.
  - change ((y :: xs) !! S i) with (xs !! i) in Hx.
    change (([g y k] ++ collect_from f (S k) xs) !! S i)
      with (collect_from f (S k) xs !! i).
    rewrite (Hi _ _ Hx). do 2 f_equal. lia.
Qed.

Lemma V1_containers_eq psd g :
  V1.templateGroup psd = Some g ->
  containers (V1.extractTemplateMetadata psd) =
  collect_from (V1.containerOf (dim_or (p_width psd) 1) (dim_or (p_height psd) 1)) 0
    (nullish (l_children g) []).
Proof.
  intros H. unfold V1.extractTemplateMetadata. cbn [containers]. rewrite H.
  by destruct (l_children g).
Qed.

Lemma V2_containers_eq psd g :
  V2.templateGroup psd = Some g ->
  containers (V2.extractTemplateMetadata psd) =
  collect_from (V2.containerOf (dim_or (p_width psd) 1) (dim_or (p_height psd) 1)) 0
    (nullish (l_children g) []).
Proof.
  intros H. unfold V2.extractTemplateMetadata. cbn [containers]. rewrite H.
  by destruct (l_children g).
Qed.

Lemma V1_containers_none psd :
  V1.templateGroup psd = None -> containers (V1.extractTemplateMetadata psd) = [].
Proof. intros H. unfold V1.extractTemplateMetadata. cbn [containers]. by rewrite H. Qed.

Lemma V2_containers_none psd :
  V2.templateGroup psd = None -> containers (V2.extractTemplateMetadata psd) = [].
Proof. intros H. unfold V2.extractTemplateMetadata. cbn [containers]. by rewrite H. Qed.

Lemma append_assoc_s (a b c : string) : (a +:+ b) +:+ c = a +:+ (b +:+ c).
Proof.
  induction a as [|x a IH]; [done|].
  change (String x ((a +:+ b) +:+ c) = String x (a +:+ (b +:+ c))).
  by rewrite IH.
Qed.

Lemma V1_checkLayer_app c issues l :
  V1.checkLayer c issues l = issues ++ V1.checkLayer c [] l.
Proof.
  unfold V1.checkLayer.
  destruct (l_top l), (l_left l), (l_bottom l), (l_right l);
    rewrite ?app_nil_r; try done.
  destruct (_ || _); [done|by rewrite app_nil_r].
Qed.

Lemma V1_checkLayer_outside c l :
  outside c l -> V1.checkLayer c [] l = [issue_of c l].
Proof.
  intros (t & lf & b & r & Ht & Hl & Hb & Hr & H). unfold V1.checkLayer.
  rewrite Ht, Hl, Hb, Hr.
  replace (_ || _) with true; [done|]. symmetry.
  rewrite !orb_true_iff, !Z.ltb_lt. lia.
Qed.

Lemma V1_checkLayer_quiet c l :
  ~ outside c l -> V1.checkLayer c [] l = [].
Proof.
  intros H. unfold V1.checkLayer.
  destruct (l_top l) as [t|] eqn:Ht, (l_left l) as [lf|] eqn:Hl,
    (l_bottom l) as [b|] eqn:Hb, (l_right l) as [r|] eqn:Hr; try done.
  destruct (_ || _) eqn:E; [|done]. exfalso. apply H.
  exists t, lf, b, r. split_and!; [done..|].
  rewrite !orb_true_iff, !Z.ltb_lt in E. lia.
Qed.

Lemma strictly_inside_not_outside c l : strictly_inside c l -> ~ outside c l.
Proof.
  intros (t & lf & b & r & Ht & Hl & Hb & Hr & H) (t' & lf' & b' & r' & Ht' & Hl' & Hb' & Hr' & H').
  simplify_eq. lia.
Qed.

Lemma V1_fold_checkLayer c ls : forall issues,
  fold_left (V1.checkLayer c) ls issues = issues ++ flat_map (V1.checkLayer c []) ls.
Proof.
  induction ls as [|l ls IH]; intros issues; cbn [fold_left flat_map].
  - by rewrite app_nil_r.
  - rewrite IH, V1_checkLayer_app. by rewrite <- app_assoc.
Qed.

Lemma V1_checkGroup_eq template issues g :
  V1.checkGroup (V1.containerMap template) issues g =
  issues ++ match design_container template g with
            | Some c => flat_map (V1.checkLayer c []) (nullish (l_children g) [])
            | None => []
            end.
Proof.
  unfold V1.checkGroup, design_container.
  destruct (is_template g); [by rewrite app_nil_r|].
  destruct (l_name g) as [[|a r]|]; rewrite ?app_nil_r; try done.
  destruct (V1.containerMap template !! String a r); [|by rewrite app_nil_r].
  apply V1_fold_checkLayer.
Qed.

Lemma V1_fold_checkGroup template gs : forall issues,
  fold_left (V1.checkGroup (V1.containerMap template)) gs issues =
  issues ++ flat_map (fun g =>
              match design_container template g with
              | Some c => flat_map (V1.checkLayer c []) (nullish (l_children g) [])
              | None => []
              end) gs.
Proof.
  induction gs as [|g gs IH]; intros issues; cbn [fold_left flat_map].
  - by rewrite app_nil_r.
  - rewrite IH, V1_checkGroup_eq. by rewrite <- app_assoc.
Qed.

(** The report lists, group by group and child by child, one issue for
    each child outside its container and nothing for the others. *)
Lemma V1_validator_issues psd template :
  issues (V1.mapLayersToContainers psd template) =
  flat_map (fun g =>
    match design_container template g with
    | Some c => flat_map (V1.checkLayer c []) (nullish (l_children g) [])
    | None => []
    end) (nullish (p_children psd) []) /\
  (forall c l, outside c l -> V1.checkLayer c [] l = [issue_of c l]) /\
  (forall c l, strictly_inside c l -> V1.checkLayer c [] l = []) /\
  (forall c l, length (V1.checkLayer c [] l) <= 1)%nat.
Proof.
  split_and!.
  - unfold V1.mapLayersToContainers. cbn [issues]. by rewrite V1_fold_checkGroup.
  - apply V1_checkLayer_outside.
  - intros c l H. by apply V1_checkLayer_quiet, strictly_inside_not_outside.
  - intros c l. unfold V1.checkLayer.
    destruct (l_top l), (l_left l), (l_bottom l), (l_right l); cbn; try lia.
    destruct (_ || _); cbn; lia.
Qed.





Lemma TransformedLayer_forest_ind (P : TransformedLayer -> Prop) :
  (forall l, (forall cs, t_children l = Some cs -> Forall P cs) -> P l) ->
  forall l, P l.
Proof.
  intros H. fix IH 1. intros [i k v o c r [kids|]]; apply H; simpl;
    intros cs Hcs; [|discriminate].
  assert (HF : Forall P kids).
  { clear Hcs. induction kids as [|x kids IHkids]; constructor;
      [apply IH | exact IHkids]. }
  by injection Hcs as <-.
Qed.

Lemma appends_ret : appends Ok.
Proof. exists []. intros ctx. by rewrite app_nil_r. Qed.

Lemma appends_emit op : appends (emit op).
Proof. by exists [op]. Qed.

Lemma appends_bind f g :
  appends f -> appends g -> appends (fun ctx => ctx' <- f ctx ;; g ctx').
Proof.
  intros [a Ha] [b Hb]. exists (a ++ b). intros ctx.
  rewrite Ha. cbn [bind]. by rewrite Hb, app_assoc.
Qed.

Lemma for_reverse_ops {A} (body : A -> Ctx -> result Ctx) (ops_of : A -> list DrawOp) ls :
  Forall (fun l => forall ctx, body l ctx = Ok (ctx ++ ops_of l)) ls ->
  forall ctx, for_reverse body ls ctx = Ok (ctx ++ concat (map ops_of (rev ls))).
Proof.
  induction 1 as [|l ls Hl _ IH]; intros ctx; cbn [for_reverse rev map concat].
  - by rewrite app_nil_r.
  - rewrite IH. cbn [bind]. rewrite Hl, map_app, concat_app. cbn [map concat].
    by rewrite app_nil_r, app_assoc.
Qed.

Lemma appends_for_reverse {A} (body : A -> Ctx -> result Ctx) ls :
  Forall (fun l => appends (body l)) ls -> appends (for_reverse body ls).
Proof.
  induction 1 as [|l ls Hl _ IH]; cbn [for_reverse]; [apply appends_ret|].
  by apply (appends_bind (for_reverse body ls) (body l)).
Qed.

Lemma V1_drawGenerative_appends preview layer :
  appends (V1.drawGenerative preview layer).
Proof.
  unfold V1.drawGenerative, emit. destruct (str_truthy preview);
    eexists; intros ctx; cbn [bind]; rewrite <- ?app_assoc; reflexivity.
Qed.

Lemma V1_drawPixels_appends psd layer : appends (V1.drawPixels psd layer).
Proof.
  unfold V1.drawPixels.
  destruct (V1_findLayerByPath_total psd (t_id layer)) as [r ->]. cbn [bind].
  destruct r as [original|]; [|apply appends_ret].
  destruct (l_canvas original) as [source|]; [|apply appends_ret].
  unfold emit, drawImage.
  destruct (q_truthy (t_rotation layer)), ((cv_width source =? 0)%N || (cv_height source =? 0)%N);
    eexists; intros ctx; cbn [bind try_catch emit]; rewrite <- ?app_assoc; reflexivity.
Qed.

Lemma V1_drawLayer_eq w h psd preview layer ctx :
  V1.drawLayer w h psd preview layer ctx =
  let c := t_coords layer in
  if Qlt_bool w (bx c) || Qlt_bool h (by_ c)
     || Qlt_bool (bx c + bw c)%Q 0%Q || Qlt_bool (by_ c + bh c)%Q 0%Q
  then Ok ctx
  else if t_isVisible layer then
    ctx <- emit OpSave ctx ;;
    ctx <- match t_type layer, t_children layer with
           | KGroup, Some children => V1.drawLayers w h psd preview children ctx
           | KGenerative, _ => V1.drawGenerative preview layer ctx
           | _, _ => V1.drawPixels psd layer ctx
           end ;;
    emit OpRestore ctx
  else Ok ctx.
Proof. by destruct layer. Qed.

Lemma V1_drawLayer_appends w h psd preview :
  forall layer, appends (V1.drawLayer w h psd preview layer).
Proof.
  induction layer as [layer IH] using TransformedLayer_forest_ind.
  assert (E : forall f, (forall ctx, V1.drawLayer w h psd preview layer ctx = f ctx) ->
              appends f -> appends (V1.drawLayer w h psd preview layer)).
  { intros f Hf [ops Ho]. exists ops. intros ctx. by rewrite Hf. }
  destruct (Qlt_bool w (bx (t_coords layer)) || Qlt_bool h (by_ (t_coords layer))
     || Qlt_bool (bx (t_coords layer) + bw (t_coords layer))%Q 0%Q
     || Qlt_bool (by_ (t_coords layer) + bh (t_coords layer))%Q 0%Q) eqn:Hcull.
  { apply (E Ok); [|apply appends_ret]. intros ctx.
    by rewrite V1_drawLayer_eq; cbv zeta; rewrite Hcull. }
  destruct (t_isVisible layer) eqn:Hvis.
  2:{ apply (E Ok); [|apply appends_ret]. intros ctx.
      by rewrite V1_drawLayer_eq; cbv zeta; rewrite Hcull, Hvis. }
  assert (Hmid : appends (fun ctx =>
            match t_type layer, t_children layer with
            | KGroup, Some children => V1.drawLayers w h psd preview children ctx
            | KGenerative, _ => V1.drawGenerative preview layer ctx
            | _, _ => V1.drawPixels psd layer ctx
            end)).
  { destruct (t_type layer); [apply V1_drawPixels_appends| |apply V1_drawGenerative_appends].
    destruct (t_children layer) as [kids|]; [|apply V1_drawPixels_appends].
    apply appends_for_reverse. by apply IH. }
  eapply E; [intros ctx; rewrite V1_drawLayer_eq; cbv zeta; rewrite Hcull, Hvis; reflexivity|].
  apply (appends_bind (emit OpSave)); [apply appends_emit|].
  apply (appends_bind _ (emit OpRestore)); [exact Hmid|apply appends_emit].
Qed.

Lemma V1_drawLayer_ops w h psd preview layer ctx :
  V1.drawLayer w h psd preview layer ctx
  = Ok (ctx ++ V1_layer_ops w h psd preview layer).
Proof.
  destruct (V1_drawLayer_appends w h psd preview layer) as [ops H].
  unfold V1_layer_ops. by rewrite !H.
Qed.

Lemma V1_drawLayers_ops w h psd preview layers ctx :
  V1.drawLayers w h psd preview layers ctx
  = Ok (ctx ++ concat (map (V1_layer_ops w h psd preview) (rev layers))).
Proof.
  apply for_reverse_ops, Forall_forall. intros l _ c. apply V1_drawLayer_ops.
Qed.

Lemma V1_composite_total has_context payload psd :
  exists r, V1.compositePayloadToCanvas has_context payload psd = Ok r.
Proof.
  unfold V1.compositePayloadToCanvas.
  destruct payload as [payload|], psd as [psd|]; eauto.
  destruct has_context; cbn [negb]; [|eauto].
  unfold emit. cbn [bind]. rewrite V1_drawLayers_ops. cbn [bind]. eauto.
Qed.

Lemma V1_composite_snapshot payload psd :
  V1.compositePayloadToCanvas true (Some payload) (Some psd) =
  Ok (Some {| snap_mime := "image/jpeg";
              snap_quality := Some (9 # 10)%Q;
              snap_width := tw (target payload);
              snap_height := th (target payload);
              snap_ops :=
                [OpFillStyle "#0f172a";
                 OpFillRect 0%Q 0%Q (tw (target payload)) (th (target payload))]
                ++ concat (map (V1_layer_ops (tw (target payload)) (th (target payload))
                                  psd (previewUrl payload))
                             (rev (layers payload))) |}).
Proof.
  unfold V1.compositePayloadToCanvas. cbn [negb]. unfold emit. cbn [bind].
  rewrite V1_drawLayers_ops. reflexivity.
Qed.

Lemma V2_composite_unavailable has_context payload psd :
  (tw (target payload) <= 0)%Q \/ (th (target payload) <= 0)%Q ->
  V2.compositePayloadToCanvas has_context payload psd = Ok None.
Proof.
  intros H. unfold V2.compositePayloadToCanvas.
  replace (Qle_bool (tw (target payload)) 0 || Qle_bool (th (target payload)) 0)
    with true; [done|].
  symmetry. rewrite orb_true_iff, !Qle_bool_iff. exact H.
Qed.















Import Common.

Lemma map_num_inj p q : map num p = map num q -> p = q.
Proof.
  revert q. induction p as [|i p IH]; intros [|j q]; cbn; try done.
  intros [= H1 H2]. f_equal; [lia|by apply IH].
Qed.

Lemma take_digits_digits s : all_chars is_digit s = true -> take_digits s = s.
Proof.
  induction s as [|c r IH]; cbn [take_digits all_chars]; [done|].
  intros [Hc Hr]%andb_prop. by rewrite Hc, IH.
Qed.

Lemma parseInt10_digits s v :
  all_chars is_digit s = true -> digits 10 s = Some v -> parseInt10 s = JDec v 0.
Proof.
  intros Hs Hv. unfold parseInt10. rewrite trim_start_digits by done.
  destruct s as [|c r]; [done|]. pose proof Hs as [Hc _]%andb_prop.
  rewrite signed_digits by done. by rewrite take_digits_digits, Hv.
Qed.

Lemma parseInt10_nat_str n : parseInt10 (nat_str n) = num n.
Proof. apply parseInt10_digits; [apply nat_str_digits | apply nat_str_value]. Qed.

Lemma digit_not_dash c : is_digit c = true -> Ascii.eqb c "-" = false.
Proof. intros H. by destruct (digit_not_marker c H) as (_&_&_&_&_&_&_&_&_&->&_). Qed.

Lemma path_id2_snoc p i : path_id2 (p ++ [i]) = path_id2 p +:+ "-" +:+ nat_str i.
Proof. unfold path_id2. by rewrite fold_left_app. Qed.

Lemma split_path_id2 p : split "-" (path_id2 p) = "root" :: map nat_str p.
Proof.
  induction p as [|i p IH] using rev_ind; [done|].
  rewrite path_id2_snoc.
  change (path_id2 p +:+ "-" +:+ nat_str i) with (path_id2 p +:+ String "-" (nat_str i)).
  rewrite split_app, IH, map_app.
  by rewrite split_digits by auto using digit_not_dash, nat_str_digits.
Qed.

Lemma path_id2_nonempty p : path_id2 p <> EmptyString.
Proof.
  intros E. pose proof (split_path_id2 p) as H. by rewrite E in H.
Qed.

Lemma ge_length_num i len : ge_length (num i) len = (len <=? i)%nat.
Proof.
  unfold ge_length, num. cbn [Z.leb Z.compare]. rewrite Z.pow_0_r, Z.mul_1_r.
  destruct (Nat.leb_spec len i), (Z.leb_spec (Z.of_nat len) (Z.of_nat i)); lia.
Qed.

Lemma V2_walk_sub q : forall l,
  V2.walk (map num q) (l_children l) (Some l) = Ok (sub_at q l).
Proof.
  induction q as [|j q IH]; intros l; [done|].
  cbn [map V2.walk sub_at]. destruct (l_children l) as [cs|]; [|done].
  rewrite ge_length_num, index_num.
  destruct (Nat.leb_spec (length cs) j) as [Hge|Hlt].
  - by rewrite (proj2 (lookup_ge_None cs j) Hge).
  - destruct (lookup_lt_is_Some_2 cs j Hlt) as [c Hc]. rewrite Hc.
    cbn [prop_children bind]. apply IH.
Qed.

Lemma V2_walk_path p layers t :
  p <> [] -> V2.walk (map num p) (Some layers) t = Ok (node_at p layers).
Proof.
  destruct p as [|i q]; [done|]. intros _.
  cbn [map V2.walk node_at]. rewrite ge_length_num, index_num.
  destruct (Nat.leb_spec (length layers) i) as [Hge|Hlt].
  - by rewrite (proj2 (lookup_ge_None layers i) Hge).
  - destruct (lookup_lt_is_Some_2 layers i Hlt) as [c Hc]. rewrite Hc.
    cbn [prop_children bind]. apply V2_walk_sub.
Qed.

Lemma V2_findLayerByPath_path psd layers p :
  p_children psd = Some layers -> p <> [] ->
  V2.findLayerByPath psd (path_id2 p) = Ok (node_at p layers).
Proof.
  intros Hc Hp. unfold V2.findLayerByPath.
  pose proof (path_id2_nonempty p).
  destruct (path_id2 p) eqn:E; [done|]. rewrite <- E.
  rewrite split_path_id2. cbn [tail]. rewrite map_map.
  rewrite (map_ext _ num parseInt10_nat_str), Hc. by apply V2_walk_path.
Qed.

Lemma V2_cleanNode_eq parentId layer index :
  V2.cleanNode parentId layer index =
  [ {| s_id := parentId +:+ "-" +:+ nat_str index;
       s_name := str_or (l_name layer) ("Layer " +:+ nat_str index);
       s_type := match l_children layer with Some _ => KGroup | None => KLayer end;
       s_isVisible := negb (nullish (l_hidden layer) false);
       s_opacity := match l_opacity layer with
                    | Some o => ratio o 255
                    | None => 1%Q
                    end;
       s_coords := mkBox (z_or (l_left layer) 0) (z_or (l_top layer) 0)
                         (z_or (l_right layer) 0 - z_or (l_left layer) 0)
                         (z_or (l_bottom layer) 0 - z_or (l_top layer) 0);
       s_children :=
         match l_children layer with
         | Some cs => Some (V2.getCleanLayerTree cs (parentId +:+ "-" +:+ nat_str index))
         | None => None
         end |} ].
Proof. by destruct layer. Qed.

Lemma V2_cleanNode_origin : forall layer p i s,
  tree_In s (V2.cleanNode (path_id2 p) layer i) ->
  exists q n pre j,
    sub_at q layer = Some n /\ p ++ i :: q = pre ++ [j] /\
    V2.cleanNode (path_id2 pre) n j = [s].
Proof.
  induction layer as [layer IH] using Layer_forest_ind. intros p i s Hs.
  rewrite V2_cleanNode_eq in Hs.
  inversion Hs as [f Hin|parent cs f Hin Hcs Hsub]; subst.
  - apply list_elem_of_singleton in Hin. subst s.
    exists [], layer, p, i. split_and!; [done..|].
    by rewrite V2_cleanNode_eq.
  - apply list_elem_of_singleton in Hin. subst parent. cbn [s_children] in Hcs.
    destruct (l_children layer) as [kids|] eqn:Hk; [|done].
    injection Hcs as <-. unfold V2.getCleanLayerTree in Hsub.
    rewrite <- path_id2_snoc in Hsub.
    apply tree_In_collect in Hsub as (j & c & Hj & Hc).
    specialize (IH kids eq_refl). rewrite Forall_forall in IH.
    destruct (IH c (list_elem_of_lookup_2 _ _ _ Hj) _ _ _ Hc)
      as (q & n & pre & j' & Hq & Hp & Hn).
    exists (j :: q), n, pre, j'. split_and!; [|by rewrite <- Hp, <- app_assoc|done].
    cbn [sub_at]. by rewrite Hk, Hj.
Qed.

Lemma all_chars_app p a b :
  all_chars p (a +:+ b) = all_chars p a && all_chars p b.
Proof.
  induction a as [|c a IH]; [done|].
  change (String c a +:+ b) with (String c (a +:+ b)).
  cbn [all_chars]. by rewrite IH, andb_assoc.
Qed.

Lemma all_chars_impl (p q : ascii -> bool) s :
  (forall c, p c = true -> q c = true) -> all_chars p s = true -> all_chars q s = true.
Proof.
  intros H. induction s as [|c r IH]; cbn [all_chars]; [done|].
  intros [Hc Hr]%andb_prop. by rewrite H, IH.
Qed.

Lemma split_no_sep sep s : all_chars (not_char sep) s = true -> split sep s = [s].
Proof.
  induction s as [|c r IH]; cbn [split all_chars]; [done|].
  intros [Hc Hr]%andb_prop. unfold not_char in Hc.
  destruct (Ascii.eqb c sep); [done|]. by rewrite IH.
Qed.

Lemma split_segments sep s :
  Forall (fun seg => all_chars (not_char sep) seg = true) (split sep s).
Proof.
  induction s as [|c r IH]; cbn [split]; [by repeat constructor|].
  destruct (Ascii.eqb c sep) eqn:E; [by constructor|].
  destruct (split sep r) as [|h t]; [by repeat constructor; cbn; unfold not_char; rewrite E|].
  inversion IH; subst. constructor; [|done]. cbn. unfold not_char at 1. by rewrite E.
Qed.

Lemma nat_str_no_dash n : all_chars (not_char "-") (nat_str n) = true.
Proof.
  apply (all_chars_impl is_digit); [|apply nat_str_digits].
  intros c Hc. unfold not_char. by rewrite digit_not_dash.
Qed.

Lemma nat_str_no_dot n : all_chars (not_char ".") (nat_str n) = true.
Proof.
  apply (all_chars_impl is_digit); [|apply nat_str_digits].
  intros c Hc. unfold not_char. by rewrite digit_not_dot.
Qed.

Lemma path_id_no_dash p : all_chars (not_char "-") (path_id p) = true.
Proof.
  induction p as [|i p IH] using rev_ind; [done|].
  rewrite path_id_snoc. unfold V1.currentPath.
  destruct (path_id p) as [|c r] eqn:E; [apply nat_str_no_dash|].
  rewrite !all_chars_app, IH, nat_str_no_dash. done.
Qed.

Lemma path_id2_no_dot p : all_chars (not_char ".") (path_id2 p) = true.
Proof.
  induction p as [|i p IH] using rev_ind; [done|].
  rewrite path_id2_snoc, !all_chars_app, IH, nat_str_no_dot. done.
Qed.

Lemma path_id2_head p : exists rest, path_id2 p = String "r" rest.
Proof.
  induction p as [|i p [rest IH]] using rev_ind; [by eexists|].
  rewrite path_id2_snoc, IH. by eexists.
Qed.

Lemma Number_letter_r rest : Number (String "r" rest) = JNaN.
Proof.
  unfold Number, trim.
  change (trim_start (String "r" rest)) with (String "r" rest).
  assert (exists x, trim_end (String "r" rest) = String "r" x) as [x ->].
  { cbn [trim_end]. destruct (trim_end rest); by eexists. }
  change (radix_literal (String "r" x)) with (@None Z).
  change (signed (String "r" x)) with (false, String "r" x).
  change (String.eqb (String "r" x) "Infinity") with false. cbv iota beta.
  unfold decimal_literal. cbn [break_at].
  change (Ascii.eqb "r" "e" || Ascii.eqb "r" "E") with false. cbv iota.
  destruct (break_at _ x) as [before after]. cbn [break_at].
  change (Ascii.eqb "r" ".") with false. cbv iota.
  destruct (break_at _ before) as [int fr].
  assert (D : digits_acc 10 (String "r" int) 0 = None) by reflexivity.
  destruct fr as [f|]; cbn [digits]; rewrite D; by destruct after as [a|]; [destruct (exponent a)|].
Qed.

Lemma digit_val_nonneg radix c d : digit_val radix c = Some d -> 0 <= d.
Proof.
  unfold digit_val. destruct (if _ : bool then _ else _) as [v|]; [|done].
  destruct (v <? radix)%N; [|done]. intros [= <-]. lia.
Qed.

Lemma digits_acc_nonneg s : forall acc v,
  0 <= acc -> digits_acc 10 s acc = Some v -> 0 <= v.
Proof.
  induction s as [|c r IH]; intros acc v Hacc; cbn [digits_acc].
  - intros [= <-]. done.
  - destruct (digit_val 10 c) as [d|] eqn:Hd; [|done].
    apply digit_val_nonneg in Hd. apply IH. lia.
Qed.

Lemma trim_start_all p s : all_chars p s = true -> all_chars p (trim_start s) = true.
Proof.
  induction s as [|c r IH]; cbn [trim_start all_chars]; [done|].
  intros [Hc Hr]%andb_prop. destruct (is_space c); [by apply IH|].
  cbn [all_chars]. by rewrite Hc, Hr.
Qed.

Lemma signed_no_dash s :
  all_chars (not_char "-") s = true -> fst (signed s) = false.
Proof.
  destruct s as [|c r]; [done|]. cbn [all_chars]. intros [Hc _]%andb_prop.
  ascii_cases c; try reflexivity. by vm_compute in Hc.
Qed.

Lemma parseInt10_segment seg :
  all_chars (not_char "-") seg = true ->
  parseInt10 seg = JNaN \/ exists k, parseInt10 seg = num k.
Proof.
  intros H. unfold parseInt10.
  pose proof (signed_no_dash _ (trim_start_all _ _ H)) as Hs.
  destruct (signed (trim_start seg)) as [neg r]. cbn in Hs. subst neg.
  destruct (digits 10 (take_digits r)) as [v|] eqn:Hv; [|by left].
  right. exists (Z.to_nat v). unfold num. f_equal.
  unfold digits in Hv. destruct (take_digits r); [done|].
  apply digits_acc_nonneg in Hv; lia.
Qed.

Lemma V2_walk_throw indices : forall cur t e,
  Forall (fun x => x = JNaN \/ exists k, x = num k) indices ->
  V2.walk indices cur t = Throw e -> e = TypeError /\ JNaN ∈ indices.
Proof.
  induction indices as [|x rest IH]; intros cur t e HF; cbn [V2.walk]; [done|].
  inversion HF as [|? ? Hx Hrest]; subst.
  destruct cur as [arr|]; [|done].
  destruct Hx as [->|[k ->]].
  - cbn [ge_length]. intros H. cbn in H. injection H as <-. split; [done|]. apply list_elem_of_here.
  - rewrite ge_length_num, index_num.
    destruct (Nat.leb_spec (length arr) k) as [Hge|Hlt]; [done|].
    destruct (lookup_lt_is_Some_2 arr k Hlt) as [c Hc]. rewrite Hc.
    cbn [prop_children bind]. intros H. apply IH in H as [-> Hin]; [|done].
    split; [done|]. by apply list_elem_of_further.
Qed.

Lemma find_app_first {A} (f : A -> bool) a b :
  List.find f (a ++ b) =
  match List.find f a with Some x => Some x | None => List.find f b end.
Proof.
  induction a as [|x a IH]; cbn [app List.find]; [done|].
  by destruct (f x).
Qed.

Lemma containerMap_fold cs : forall (m : gmap string ContainerDefinition) n,
  fold_left (fun m c => <[c_name c := c]> m) cs m !! n =
  match List.find (fun c => String.eqb (c_name c) n) (rev cs) with
  | Some c => Some c
  | None => m !! n
  end.
Proof.
  induction cs as [|c cs IH]; intros m n; cbn [fold_left rev]; [done|].
  rewrite IH, find_app_first.
  destruct (List.find _ (rev cs)); [done|]. cbn [List.find].
  destruct (String.eqb_spec (c_name c) n) as [->|Hne].
  - by rewrite lookup_insert_eq.
  - by rewrite lookup_insert_ne.
Qed.



Lemma templateGroup_none_iff psd :
  V1.templateGroup psd = None <->
  forall l, l ∈ nullish (p_children psd) [] -> l_name l <> Some "!!TEMPLATE".
Proof.
  unfold V1.templateGroup. destruct (p_children psd) as [cs|]; cbn [nullish].
  2:{ split; [|done]. intros _ l Hl. by apply elem_of_nil in Hl. }
  split.
  - intros H l Hl Hn. apply list_elem_of_In in Hl.
    apply (find_none _ _ H) in Hl. unfold is_template in Hl. by rewrite Hn in Hl.
  - intros H. destruct (List.find is_template cs) as [l|] eqn:E; [|done].
    apply find_some in E as [Hin Ht]. exfalso.
    apply (H l); [by apply list_elem_of_In|].
    unfold is_template in Ht. destruct (l_name l) as [n|]; [|done].
    by apply String.eqb_eq in Ht as ->.
Qed.

Lemma save_depth_app a : forall b d,
  save_depth (a ++ b) d =
  match save_depth a d with Some d' => save_depth b d' | None => None end.
Proof.
  induction a as [|op a IH]; intros b d; [done|].
  destruct op; cbn [app save_depth]; try apply IH.
  destruct d; [done|apply IH].
Qed.

Lemma balanced_nil : balanced [].
Proof. by intros d. Qed.

Lemma balanced_app a b : balanced a -> balanced b -> balanced (a ++ b).
Proof. intros Ha Hb d. by rewrite save_depth_app, Ha, Hb. Qed.

Lemma balanced_scope mid : balanced mid -> balanced (OpSave :: mid ++ [OpRestore]).
Proof. intros H d. cbn [save_depth]. by rewrite save_depth_app, H. Qed.

Lemma appends_balanced_ret : appends_balanced Ok.
Proof. exists []. split; [apply balanced_nil|]. intros ctx. by rewrite app_nil_r. Qed.

Lemma appends_balanced_bind f g :
  appends_balanced f -> appends_balanced g ->
  appends_balanced (fun ctx => ctx' <- f ctx ;; g ctx').
Proof.
  intros (a & Ba & Ha) (b & Bb & Hb). exists (a ++ b). split; [by apply balanced_app|].
  intros ctx. rewrite Ha. cbn [bind]. by rewrite Hb, app_assoc.
Qed.

Lemma appends_balanced_for_reverse {A} (body : A -> Ctx -> result Ctx) ls :
  Forall (fun l => appends_balanced (body l)) ls -> appends_balanced (for_reverse body ls).
Proof.
  induction 1 as [|l ls Hl _ IH]; cbn [for_reverse]; [apply appends_balanced_ret|].
  by apply (appends_balanced_bind (for_reverse body ls) (body l)).
Qed.

Lemma appends_balanced_scope mid :
  appends_balanced mid ->
  appends_balanced (fun ctx => ctx <- emit OpSave ctx ;; ctx <- mid ctx ;; emit OpRestore ctx).
Proof.
  intros (ops & B & H). exists (OpSave :: ops ++ [OpRestore]).
  split; [by apply balanced_scope|]. intros ctx. unfold emit. cbn [bind].
  rewrite H. cbn [bind]. by rewrite <- !app_assoc.
Qed.

Lemma V1_drawGenerative_balanced preview layer :
  appends_balanced (V1.drawGenerative preview layer).
Proof.
  unfold V1.drawGenerative, emit. destruct (str_truthy preview);
    (eexists; split; cycle 1;
     [intros ctx; cbn [bind]; rewrite <- ?app_assoc; reflexivity | by intros d]).
Qed.

Lemma V1_drawPixels_balanced psd layer : appends_balanced (V1.drawPixels psd layer).
Proof.
  unfold V1.drawPixels.
  destruct (V1_findLayerByPath_total psd (t_id layer)) as [r ->]. cbn [bind].
  destruct r as [original|]; [|apply appends_balanced_ret].
  destruct (l_canvas original) as [source|]; [|apply appends_balanced_ret].
  unfold emit, drawImage.
  destruct (q_truthy (t_rotation layer)), ((cv_width source =? 0)%N || (cv_height source =? 0)%N);
    (eexists; split; cycle 1;
     [intros ctx; cbn [bind try_catch emit]; rewrite <- ?app_assoc; reflexivity | by intros d]).
Qed.

Lemma V1_drawLayer_balanced w h psd preview :
  forall layer, appends_balanced (V1.drawLayer w h psd preview layer).
Proof.
  induction layer as [layer IH] using TransformedLayer_forest_ind.
  assert (E : forall f, (forall ctx, V1.drawLayer w h psd preview layer ctx = f ctx) ->
              appends_balanced f -> appends_balanced (V1.drawLayer w h psd preview layer)).
  { intros f Hf (ops & B & Ho). exists ops. split; [done|]. intros ctx. by rewrite Hf. }
  destruct (Qlt_bool w (bx (t_coords layer)) || Qlt_bool h (by_ (t_coords layer))
     || Qlt_bool (bx (t_coords layer) + bw (t_coords layer))%Q 0%Q
     || Qlt_bool (by_ (t_coords layer) + bh (t_coords layer))%Q 0%Q) eqn:Hcull.
  { apply (E Ok); [|apply appends_balanced_ret]. intros ctx.
    by rewrite V1_drawLayer_eq; cbv zeta; rewrite Hcull. }
  destruct (t_isVisible layer) eqn:Hvis.
  2:{ apply (E Ok); [|apply appends_balanced_ret]. intros ctx.
      by rewrite V1_drawLayer_eq; cbv zeta; rewrite Hcull, Hvis. }
  eapply E; [intros ctx; rewrite V1_drawLayer_eq; cbv zeta; rewrite Hcull, Hvis; reflexivity|].
  apply (appends_balanced_scope (fun ctx =>
            match t_type layer, t_children layer with
            | KGroup, Some children => V1.drawLayers w h psd preview children ctx
            | KGenerative, _ => V1.drawGenerative preview layer ctx
            | _, _ => V1.drawPixels psd layer ctx
            end)).
  destruct (t_type layer); [apply V1_drawPixels_balanced| |apply V1_drawGenerative_balanced].
  destruct (t_children layer) as [kids|]; [|apply V1_drawPixels_balanced].
  apply appends_balanced_for_reverse. by apply IH.
Qed.

Lemma V1_layer_ops_balanced w h psd preview layer :
  balanced (V1_layer_ops w h psd preview layer).
Proof.
  destruct (V1_drawLayer_balanced w h psd preview layer) as (ops & B & H).
  unfold V1_layer_ops. by rewrite H.
Qed.

Lemma balanced_concat l : Forall balanced l -> balanced (concat l).
Proof.
  induction 1; cbn [concat]; [apply balanced_nil|by apply balanced_app].
Qed.

Lemma Qlt_bool_iff a b : Qlt_bool a b = true <-> (a < b)%Q.
Proof.
  unfold Qlt_bool. rewrite negb_true_iff. split.
  - intros H. apply Qnot_le_lt. intros Hle. apply Qle_bool_iff in Hle. congruence.
  - intros H. destruct (Qle_bool b a) eqn:E; [|done].
    apply Qle_bool_iff in E. by apply Qlt_not_le in H.
Qed.

Lemma upper_char_idem c : upper_char (upper_char c) = upper_char c.
Proof. ascii_cases c; reflexivity. Qed.

Lemma toUpperCase_idem s : toUpperCase (toUpperCase s) = toUpperCase s.
Proof.
  induction s as [|c r IH]; cbn [toUpperCase]; [done|].
  by rewrite upper_char_idem, IH.
Qed.

Lemma palette_index_range index :
  0 <= index ->
  exists t, CONTAINER_PALETTE !! Z.to_nat (index mod 8) = Some t /\
            Js.index CONTAINER_PALETTE (JDec (Z.rem index 8) 0) = Some t.
Proof.
  intros H. pose proof (Z.mod_pos_bound index 8 ltac:(lia)) as Hb.
  rewrite Z.rem_mod_nonneg by lia.
  assert (Hlt : (Z.to_nat (index mod 8) < length CONTAINER_PALETTE)%nat) by (cbn; lia).
  destruct (lookup_lt_is_Some_2 _ _ Hlt) as [t Ht]. exists t. split; [done|].
  unfold Js.index, as_index.
  destruct (Z.ltb_spec (index mod 8) 0); [lia|]. cbn [Z.leb Z.compare].
  by rewrite Z.pow_0_r, Z.mul_1_r.
Qed.

Lemma palette_index_negative index :
  index < 0 ->
  or_first (Js.index CONTAINER_PALETTE (JDec (Z.rem index 8) 0)) = purple.
Proof.
  intros H. pose proof (Z.rem_bound_pos_neg index 8 ltac:(lia) ltac:(lia)) as Hb.
  unfold Js.index, as_index.
  destruct (Z.ltb_spec (Z.rem index 8) 0) as [Hneg|Hge]; [done|].
  replace (Z.rem index 8) with 0 by lia. reflexivity.
Qed.

Lemma pick_theme_in_palette name index t :
  pick_theme name index = Some t -> t ∈ CONTAINER_PALETTE.
Proof.
  unfold pick_theme.
  destruct (includes (toUpperCase name) "BG").
  { intros [= <-]. vm_compute. apply list_elem_of_here. }
  destruct (includes (toUpperCase name) "SYMBOL").
  { intros [= <-]. apply list_elem_of_further, list_elem_of_here. }
  destruct (includes (toUpperCase name) "COUNTER").
  { intros [= <-]. do 2 apply list_elem_of_further. apply list_elem_of_here. }
  unfold Js.index. destruct (as_index _) as [k|]; [|done].
  intros H. by apply list_elem_of_lookup_2 in H.
Qed.

(** ** The claims of the specification *)

(** C1. Address round trip (first copy): every node of the tree
    [getCleanLayerTree] produces from the document's children carries an
    id that [findLayerByPath] resolves, on the same document, to the
    native node the serialized node was built from; that native node sits
    at the index path the id spells. *)
Theorem V1_address_round_trip psd layers s :
  p_children psd = Some layers ->
  tree_In s (V1.getCleanLayerTree layers EmptyString) ->
  exists n pre j,
    V1.findLayerByPath psd (s_id s) = Ok (Some n) /\
    node_at (pre ++ [j]) layers = Some n /\
    V1.cleanNode (path_id pre) n j = [s].
Proof.
  intros Hc Hs. unfold V1.getCleanLayerTree in Hs.
  apply tree_In_collect in Hs as (i & c & Hi & Hs).
  change EmptyString with (path_id []) in Hs.
  apply V1_cleanNode_origin in Hs as (q & n & pre & j & Hq & Hp & Hn).
  cbn [app Nat.add] in Hp.
  assert (Hat : node_at (pre ++ [j]) layers = Some n).
  { rewrite <- Hp. cbn [node_at]. by rewrite Hi. }
  exists n, pre, j. split_and!; [|done..].
  assert (s_id s = path_id (pre ++ [j])) as ->.
  { rewrite V1_cleanNode_eq in Hn. destruct (is_template n); [done|].
    injection Hn as <-. by rewrite path_id_snoc. }
  rewrite (V1_findLayerByPath_path psd layers) by (done || by destruct pre).
  by rewrite Hat.
Qed.

Lemma V1_address_round_trip_witness :
  exists n pre j,
    V1.findLayerByPath sample_doc "1.0" = Ok (Some n) /\
    node_at (pre ++ [j]) sample_layers = Some n /\
    V1.cleanNode (path_id pre) n j = [sample_node].
Proof.
  apply (V1_address_round_trip sample_doc sample_layers sample_node).
  - reflexivity.
  - eapply tree_below; [| |apply tree_here].
    + vm_compute. apply list_elem_of_here.
    + reflexivity.
    + apply list_elem_of_here.
Defined.

(** C2. [findLayerByPath] is to answer "not found" without throwing for
    an empty id, a non-numeric segment or an index out of range.  The
    second copy does not: [parseInt] of a non-numeric segment is NaN,
    the test [idx >= currentLayers.length] is false for NaN, the lookup
    yields undefined and reading its children throws.  The empty id and
    an index past the end do give "not found" there. *)
Theorem V2_findLayerByPath_throws_on_non_numeric :
  V2.findLayerByPath sample_doc "root-x" = Throw TypeError /\
  V2.findLayerByPath sample_doc "root-1-" = Throw TypeError /\
  V2.findLayerByPath sample_doc "" = Ok None /\
  V2.findLayerByPath sample_doc "root-7" = Ok None.
Proof. by vm_compute. Qed.

(** C3. The validator is to report exactly one issue for a design-group
    child that exceeds its container.  The second copy of
    [mapLayersToContainers] never looks at the template: on the sample
    document the layer "over" lies outside the container BG and the
    report is valid and empty. *)
Theorem V2_validator_misses_violation :
  let template := V2.extractTemplateMetadata sample_doc in
  exists c l,
    c ∈ containers template /\ c_name c = "BG" /\
    l_children sample_design = Some (l :: tail (nullish (l_children sample_design) [])) /\
    outside c l /\
    V2.mapLayersToContainers sample_doc template = {| isValid := true; issues := [] |}.
Proof.
  eexists _, _. split_and!.
  - vm_compute. apply list_elem_of_here.
  - reflexivity.
  - reflexivity.
  - exists (-5), 0, 50, 50. cbn. split_and!; [done..|]. lia.
  - reflexivity.
Qed.

(** C4. A payload whose target size is not positive is to give
    "unavailable".  The first copy of [compositePayloadToCanvas] has no
    such test: with a 0 x 0 target, or a negative one, it fills the
    background and returns a snapshot. *)
Theorem V1_composite_zero_canvas :
  V1.compositePayloadToCanvas true
    (Some (mkPayload (sample_target 0%Q 0%Q) [] None)) (Some sample_doc)
  = Ok (Some {| snap_mime := "image/jpeg";
                snap_quality := Some (9 # 10)%Q;
                snap_width := 0%Q;
                snap_height := 0%Q;
                snap_ops := [OpFillStyle "#0f172a"; OpFillRect 0%Q 0%Q 0%Q 0%Q] |}) /\
  V1.compositePayloadToCanvas true
    (Some (mkPayload (sample_target (-5)%Q 3%Q) [] None)) (Some sample_doc)
  <> Ok None.
Proof. split; [reflexivity|discriminate]. Qed.

(** C5. No node named '!!TEMPLATE' is to survive serialization, at any
    depth.  The second copy of [getCleanLayerTree] maps every layer: on
    the sample document the template group is kept at the top level and
    inside the group BG. *)
Theorem V2_serializer_keeps_template :
  exists top nested kids,
    top ∈ V2.getCleanLayerTree sample_layers "root" /\
    s_id top = "root-0" /\ s_name top = "!!TEMPLATE" /\
    tree_In nested (V2.getCleanLayerTree sample_layers "root") /\
    s_id nested = "root-1-2" /\ s_name nested = "!!TEMPLATE" /\
    s_children nested = Some kids.
Proof.
  eexists _, _, _. split_and!.
  - vm_compute. apply list_elem_of_here.
  - reflexivity.
  - reflexivity.
  - eapply tree_below; [| |apply tree_here].
    + vm_compute. apply list_elem_of_further, list_elem_of_here.
    + reflexivity.
    + do 2 apply list_elem_of_further. apply list_elem_of_here.
  - reflexivity.
  - reflexivity.
  - reflexivity.
Qed.

(** C6. A drawing failure on one layer is to be swallowed at that layer.
    The second copy calls [drawImage] without a handler: the layer
    "empty" (a 0 x 0 pixel surface) is painted first, being last in the
    list, the exception leaves [compositePayloadToCanvas] and the layer
    "over" is never painted.  The first copy, on the same plan, paints
    "over" and returns a snapshot. *)
Theorem V2_draw_failure_propagates :
  V2.compositePayloadToCanvas true
    (mkPayload (sample_target 100%Q 100%Q)
       [sample_pixels "root-1-0"; sample_pixels "root-1-1"] None) sample_doc
  = Throw InvalidStateError /\
  exists snap x y,
    V1.compositePayloadToCanvas true
      (Some (mkPayload (sample_target 100%Q 100%Q)
         [sample_pixels "1.0"; sample_pixels "1.1"] None)) (Some sample_doc)
    = Ok (Some snap) /\
    OpDrawImage (mkCanvas 4 4) x y 10%Q 10%Q ∈ snap_ops snap.
Proof.
  split; [by vm_compute|]. eexists _, _, _. split; [by vm_compute|].
  cbn [snap_ops]. do 9 apply list_elem_of_further. apply list_elem_of_here.
Qed.






(** C9, as the code has it.  Each direct child of the template group
    yields one container, in order and never skipped, in both copies, so
    the container count is the child count; a missing field counts as 0,
    so a child without any bounding-box field gets the box (0, 0, 0, 0)
    and a child missing both fields of an axis has zero extent on it. *)
Theorem one_container_per_template_child psd g :
  V1.templateGroup psd = Some g ->
  let kids := nullish (l_children g) [] in
  let cs1 := containers (V1.extractTemplateMetadata psd) in
  let cs2 := containers (V2.extractTemplateMetadata psd) in
  length cs1 = length kids /\ length cs2 = length kids /\
  forall i child, kids !! i = Some child ->
    exists c1 c2,
      cs1 !! i = Some c1 /\ cs2 !! i = Some c2 /\
      c_bounds c1 = pixel_box child /\ c_bounds c2 = pixel_box child /\
      (no_bounds child ->
         c_bounds c1 = mkBox 0 0 0 0 /\ c_bounds c2 = mkBox 0 0 0 0) /\
      (l_left child = None -> l_right child = None ->
         bw (c_bounds c1) = 0 /\ bw (c_bounds c2) = 0) /\
      (l_top child = None -> l_bottom child = None ->
         bh (c_bounds c1) = 0 /\ bh (c_bounds c2) = 0).
Proof.
  intros Hg kids cs1 cs2. subst cs1 cs2.
  rewrite (V1_containers_eq psd g Hg), (V2_containers_eq psd g Hg). fold kids.
  set (cw := dim_or (p_width psd) 1). set (ch := dim_or (p_height psd) 1).
  destruct (collect_singletons (V1.containerOf cw ch) (V1_container cw ch)
              (fun _ _ => eq_refl) kids 0%nat) as [L1 I1].
  destruct (collect_singletons (V2.containerOf cw ch) (V2_container cw ch)
              (fun _ _ => eq_refl) kids 0%nat) as [L2 I2].
  split_and!; [done..|]. intros i child Hi.
  exists (V1_container cw ch child (0 + i)), (V2_container cw ch child (0 + i)).
  split_and!; [by apply I1|by apply I2|done|done| | |].
  - intros (Ht & Hl & Hb & Hr). cbn. by rewrite Ht, Hl, Hb, Hr.
  - intros Hl Hr. cbn. by rewrite Hl, Hr.
  - intros Ht Hb. cbn. by rewrite Ht, Hb.
Qed.

Lemma one_container_per_template_child_witness :
  length (containers (V1.extractTemplateMetadata sparse_doc)) = 2%nat /\
  length (containers (V2.extractTemplateMetadata sparse_doc)) = 2%nat /\
  exists c1 c2,
    containers (V1.extractTemplateMetadata sparse_doc) !! 0%nat = Some c1 /\
    containers (V2.extractTemplateMetadata sparse_doc) !! 0%nat = Some c2 /\
    c_bounds c1 = mkBox 0 0 0 0 /\ c_bounds c2 = mkBox 0 0 0 0.
Proof.
  destruct (one_container_per_template_child sparse_doc sparse_template eq_refl)
    as (H1 & H2 & H).
  split; [exact H1|]. split; [exact H2|].
  destruct (H 0%nat (mkLayer (Some "!!A") None None None None None None None None) eq_refl)
    as (c1 & c2 & E1 & E2 & _ & _ & Hz & _).
  exists c1, c2. split; [exact E1|]. split; [exact E2|].
  apply Hz. repeat split.
Defined.

(** C9 does not hold of every child missing fields: the second child of
    the sparse template has only [left] = 10 and [bottom] = 50, and both
    copies give it the box (10, 0, -10, 50), whose area is not zero. *)
Lemma partial_bounds_counterexample :
  exists child c1 c2,
    nullish (l_children sparse_template) [] !! 1%nat = Some child /\
    l_top child = None /\ l_right child = None /\
    containers (V1.extractTemplateMetadata sparse_doc) !! 1%nat = Some c1 /\
    containers (V2.extractTemplateMetadata sparse_doc) !! 1%nat = Some c2 /\
    c_bounds c1 = mkBox 10 0 (-10) 50 /\ c_bounds c2 = mkBox 10 0 (-10) 50 /\
    bw (c_bounds c1) * bh (c_bounds c1) <> 0.
Proof.
  eexists _, _, _. split_and!; try reflexivity. cbn. lia.
Qed.

(** C10. The two copies of [extractTemplateMetadata] agree on the canvas
    and, container by container, on the pixel bounds and the normalized
    bounds.  For a child with a name both take that name as the original
    name; for a child without one, or with an empty one, the first takes
    'Untitled' and the second 'Container i'.  Both clean the name the
    same way from the original name, and the id of the first is the id
    of the second followed by a dash and the cleaned name with white
    space underscored. *)
Theorem extractors_agree psd :
  let m1 := V1.extractTemplateMetadata psd in
  let m2 := V2.extractTemplateMetadata psd in
  canvas_width m1 = canvas_width m2 /\
  canvas_height m1 = canvas_height m2 /\
  length (containers m1) = length (containers m2) /\
  map c_bounds (containers m1) = map c_bounds (containers m2) /\
  map c_normalized (containers m1) = map c_normalized (containers m2) /\
  (forall i c1 c2,
     containers m1 !! i = Some c1 -> containers m2 !! i = Some c2 ->
     c_bounds c1 = c_bounds c2 /\
     c_normalized c1 = c_normalized c2 /\
     c_name c1 = strip_bangs (c_originalName c1) /\
     c_name c2 = strip_bangs (c_originalName c2) /\
     c_id c2 = "container-" +:+ nat_str i /\
     c_id c1 = c_id c2 +:+ "-" +:+ underscore_spaces (c_name c1)) /\
  (forall g i child,
     V1.templateGroup psd = Some g ->
     nullish (l_children g) [] !! i = Some child ->
     exists c1 c2,
       containers m1 !! i = Some c1 /\ containers m2 !! i = Some c2 /\
       match l_name child with
       | Some (String a r) =>
           c_originalName c1 = String a r /\ c_originalName c2 = String a r /\
           c_name c1 = c_name c2
       | _ =>
           c_originalName c1 = "Untitled" /\ c_name c1 = "Untitled" /\
           c_originalName c2 = "Container " +:+ nat_str i /\
           c_name c2 = "Container " +:+ nat_str i
       end).
Proof.
  intros m1 m2. subst m1 m2. split; [done|]. split; [done|].
  destruct (V1.templateGroup psd) as [g|] eqn:Hg.
  - rewrite (V1_containers_eq psd g Hg), (V2_containers_eq psd g Hg).
    set (kids := nullish (l_children g) []).
    set (cw := dim_or (p_width psd) 1). set (ch := dim_or (p_height psd) 1).
    destruct (collect_singletons (V1.containerOf cw ch) (V1_container cw ch)
                (fun _ _ => eq_refl) kids 0%nat) as [L1 I1].
    destruct (collect_singletons (V2.containerOf cw ch) (V2_container cw ch)
                (fun _ _ => eq_refl) kids 0%nat) as [L2 I2].
    assert (Hpt : forall i c1 c2,
      collect_from (V1.containerOf cw ch) 0 kids !! i = Some c1 ->
      collect_from (V2.containerOf cw ch) 0 kids !! i = Some c2 ->
      exists child, kids !! i = Some child /\
        c1 = V1_container cw ch child i /\ c2 = V2_container cw ch child i).
    { intros i c1 c2 H1 H2. destruct (kids !! i) as [child|] eqn:Hi.
      - rewrite (I1 _ _ Hi) in H1. rewrite (I2 _ _ Hi) in H2.
        exists child. split; [done|]. by simplify_eq.
      - apply lookup_ge_None in Hi. apply lookup_lt_Some in H1. lia. }
    split; [congruence|]. split_and!.
    + apply list_eq. intros i. rewrite !list_lookup_fmap.
      destruct (kids !! i) as [child|] eqn:Hi.
      * by rewrite (I1 _ _ Hi), (I2 _ _ Hi).
      * apply lookup_ge_None in Hi.
        rewrite !(proj2 (lookup_ge_None _ _)) by lia. done.
    + apply list_eq. intros i. rewrite !list_lookup_fmap.
      destruct (kids !! i) as [child|] eqn:Hi.
      * by rewrite (I1 _ _ Hi), (I2 _ _ Hi).
      * apply lookup_ge_None in Hi.
        rewrite !(proj2 (lookup_ge_None _ _)) by lia. done.
    + intros i c1 c2 H1 H2.
      destruct (Hpt i c1 c2 H1 H2) as (child & Hi & -> & ->). cbn.
      split_and!; [done..|]. by rewrite append_assoc_s.
    + intros g' i child [= <-] Hi. fold kids in Hi.
      exists (V1_container cw ch child (0 + i)), (V2_container cw ch child (0 + i)).
      split; [by apply I1|]. split; [by apply I2|].
      cbn. by destruct (l_name child) as [[|a r]|].
  - rewrite V1_containers_none, V2_containers_none by done.
    split_and!; [done..| |]; [intros i c1 c2 H1; done|intros g i child H; done].
Qed.

Lemma extractors_agree_witness :
  exists c1 c2 d1 d2,
    containers (V1.extractTemplateMetadata sparse_doc) = [c1; d1] /\
    containers (V2.extractTemplateMetadata sparse_doc) = [c2; d2] /\
    c_originalName c1 = "!!A" /\ c_originalName c2 = "!!A" /\
    c_name c1 = "A" /\ c_name c2 = "A" /\
    c_originalName d1 = "Untitled" /\ c_originalName d2 = "Container 1" /\
    c_bounds d1 = c_bounds d2 /\ c_normalized d1 = c_normalized d2.
Proof.
  destruct (extractors_agree sparse_doc) as (_ & _ & _ & _ & _ & Hpt & Hn).
  destruct (Hn sparse_template 0%nat
              (mkLayer (Some "!!A") None None None None None None None None)
              eq_refl eq_refl) as (c1 & c2 & E1 & E2 & N1 & N2 & _).
  destruct (Hn sparse_template 1%nat
              (mkLayer None None (Some 10) (Some 50) None None None None None)
              eq_refl eq_refl) as (d1 & d2 & F1 & F2 & M1 & _ & M2 & _).
  destruct (Hpt 1%nat d1 d2 F1 F2) as (B1 & B2 & _).
  exists c1, c2, d1, d2.
  vm_compute in E1, E2, F1, F2.
  injection E1 as <-. injection E2 as <-. injection F1 as <-. injection F2 as <-.
  repeat split.
Defined.

(** ** Further properties of the code *)

(** X1. The id of the first copy is a faithful code of the index
    path: decoding the dot-joined id of a non-empty path, as
    [findLayerByPath] does with [split] and [Number], gives back the
    indices, so two different paths never share an id. *)
Theorem V1_path_codec p q :
  p <> [] -> q <> [] ->
  map Number (split "." (path_id p)) = map num p /\
  (path_id p = path_id q -> p = q).
Proof.
  intros Hp Hq. split; [by apply decode_path_id|].
  intros E. apply map_num_inj.
  rewrite <- (decode_path_id p), <- (decode_path_id q) by done.
  by rewrite E.
Qed.

Lemma V1_path_codec_witness :
  map Number (split "." "1.0") = [num 1; num 0] /\
  (path_id [1; 0]%nat = path_id [1; 2]%nat -> [1; 0]%nat = [1; 2]%nat).
Proof.
  apply (V1_path_codec [1; 0]%nat [1; 2]%nat); discriminate.
Defined.

(** X2. The first [findLayerByPath] never throws; it answers null for
    the empty id and for a document without children; and a node it
    returns is a node of the document, reached from the top-level list by
    one child step for each dot-separated segment of the id.  The same
    holds of its loop for whatever numbers the segments are decoded to,
    so none of this depends on how [Number] reads a segment. *)
Theorem V1_resolver_answers psd pathId :
  (exists r, V1.findLayerByPath psd pathId = Ok r) /\
  (pathId = EmptyString \/ p_children psd = None ->
   V1.findLayerByPath psd pathId = Ok None) /\
  (forall n, V1.findLayerByPath psd pathId = Ok (Some n) ->
     exists p layers,
       p_children psd = Some layers /\
       length p = length (split "." pathId) /\
       node_at p layers = Some n) /\
  (forall indices, exists r, V1.walk indices (p_children psd) None = Ok r) /\
  (forall indices n,
     indices <> [] ->
     V1.walk indices (p_children psd) None = Ok (Some n) ->
     exists p layers,
       p_children psd = Some layers /\
       length p = length indices /\
       node_at p layers = Some n).
Proof.
  split_and!.
  - apply V1_findLayerByPath_total.
  - intros H. destruct (V1_findLayerByPath_total psd pathId) as [[n|] Hr]; [|done].
    exfalso. apply V1_findLayerByPath_found in Hr as (p & layers & Hne & Hc & _).
    destruct H as [->|H]; [done|congruence].
  - intros n Hr.
    apply V1_findLayerByPath_found in Hr as (p & layers & Hne & Hc & HF & Hn).
    exists p, layers. split_and!; [done| |done].
    symmetry. by apply Forall2_length in HF.
  - intros indices. apply V1_walk_total.
  - intros indices n Hne Hr.
    apply V1_walk_found in Hr as (p & layers & Hc & HF & Hn); [|done].
    exists p, layers. split_and!; [done| |done].
    symmetry. by apply Forall2_length in HF.
Qed.

Lemma V1_resolver_answers_witness :
  V1.findLayerByPath sample_doc EmptyString = Ok None /\
  exists n p layers,
    V1.findLayerByPath sample_doc "1.0" = Ok (Some n) /\
    p_children sample_doc = Some layers /\
    length p = 2%nat /\
    node_at p layers = Some n.
Proof.
  split.
  - destruct (V1_resolver_answers sample_doc EmptyString) as (_ & H & _).
    apply H. left. reflexivity.
  - destruct (V1_resolver_answers sample_doc "1.0") as (_ & _ & H & _).
    destruct (H (sample_leaf "over" (-5) 0 50 50 (Some (mkCanvas 4 4))) eq_refl)
      as (p & layers & Hc & Hl & Hn).
    exists (sample_leaf "over" (-5) 0 50 50 (Some (mkCanvas 4 4))), p, layers.
    split; [reflexivity|]. split; [exact Hc|]. split; [exact Hl|exact Hn].
Defined.

(** X3. Address round trip in the second copy: every node of the tree
    [getCleanLayerTree] produces with the default parent id [root] carries an
    id that the second [findLayerByPath] resolves, on the same document, to
    the native node it was built from.  Nothing is filtered there, so this
    holds for template nodes too. *)
Theorem V2_address_round_trip psd layers s :
  p_children psd = Some layers ->
  tree_In s (V2.getCleanLayerTree layers "root") ->
  exists n pre j,
    V2.findLayerByPath psd (s_id s) = Ok (Some n) /\
    node_at (pre ++ [j]) layers = Some n /\
    V2.cleanNode (path_id2 pre) n j = [s].
Proof.
  intros Hc Hs. unfold V2.getCleanLayerTree in Hs.
  apply tree_In_collect in Hs as (i & c & Hi & Hs).
  change "root" with (path_id2 []) in Hs.
  apply V2_cleanNode_origin in Hs as (q & n & pre & j & Hq & Hp & Hn).
  cbn [app Nat.add] in Hp.
  assert (Hat : node_at (pre ++ [j]) layers = Some n).
  { rewrite <- Hp. cbn [node_at]. by rewrite Hi. }
  exists n, pre, j. split_and!; [|done..].
  assert (s_id s = path_id2 (pre ++ [j])) as ->.
  { rewrite V2_cleanNode_eq in Hn. injection Hn as <-. by rewrite path_id2_snoc. }
  rewrite (V2_findLayerByPath_path psd layers) by (done || by destruct pre).
  by rewrite Hat.
Qed.

Lemma V2_address_round_trip_witness :
  exists n pre j,
    V2.findLayerByPath sample_doc "root-0-0" = Ok (Some n) /\
    node_at (pre ++ [j]) sample_layers = Some n /\
    V2.cleanNode (path_id2 pre) n j =
      [ {| s_id := "root-0-0"; s_name := "!!BG"; s_type := KLayer;
           s_isVisible := true; s_opacity := 1%Q;
           s_coords := mkBox 0 0 200 100; s_children := None |} ].
Proof.
  apply (V2_address_round_trip sample_doc sample_layers
           {| s_id := "root-0-0"; s_name := "!!BG"; s_type := KLayer;
              s_isVisible := true; s_opacity := 1%Q;
              s_coords := mkBox 0 0 200 100; s_children := None |}).
  - reflexivity.
  - eapply tree_below; [| |apply tree_here].
    + vm_compute. apply list_elem_of_here.
    + reflexivity.
    + apply list_elem_of_here.
Defined.

(** X4. The two addressing schemes do not mix.  On every id of a node
    the first serializer makes from the default empty path, the second
    resolver answers null (the id has no dash, so no index is decoded);
    on every id of a node the second serializer makes from the default
    parent id [root], the first resolver answers null (the whole id is
    one segment and [Number] of it is NaN). *)
Theorem addressing_schemes_incompatible psd layers s :
  (tree_In s (V1.getCleanLayerTree layers EmptyString) ->
   V2.findLayerByPath psd (s_id s) = Ok None) /\
  (tree_In s (V2.getCleanLayerTree layers "root") ->
   V1.findLayerByPath psd (s_id s) = Ok None).
Proof.
  split.
  - intros Hs. unfold V1.getCleanLayerTree in Hs.
    apply tree_In_collect in Hs as (i & c & Hi & Hs).
    change EmptyString with (path_id []) in Hs.
    apply V1_cleanNode_origin in Hs as (q & n & pre & j & _ & _ & Hn).
    assert (s_id s = path_id (pre ++ [j])) as ->.
    { rewrite V1_cleanNode_eq in Hn. destruct (is_template n); [done|].
      injection Hn as <-. by rewrite path_id_snoc. }
    unfold V2.findLayerByPath.
    rewrite split_no_sep by apply path_id_no_dash.
    by destruct (path_id (pre ++ [j])).
  - intros Hs. unfold V2.getCleanLayerTree in Hs.
    apply tree_In_collect in Hs as (i & c & Hi & Hs).
    change "root" with (path_id2 []) in Hs.
    apply V2_cleanNode_origin in Hs as (q & n & pre & j & _ & _ & Hn).
    assert (s_id s = path_id2 (pre ++ [j])) as ->.
    { rewrite V2_cleanNode_eq in Hn. injection Hn as <-. by rewrite path_id2_snoc. }
    destruct (path_id2_head (pre ++ [j])) as [rest E]. unfold V1.findLayerByPath.
    rewrite split_no_sep by apply path_id2_no_dot. rewrite E.
    cbn [map]. rewrite Number_letter_r. cbn [V1.walk].
    by destruct (p_children psd).
Qed.

Lemma addressing_schemes_incompatible_witness :
  V2.findLayerByPath sample_doc "1.0" = Ok None /\
  V1.findLayerByPath sample_doc "root-1-0" = Ok None.
Proof.
  split.
  - apply (proj1 (addressing_schemes_incompatible sample_doc sample_layers sample_node)).
    eapply tree_below; [| |apply tree_here].
    + vm_compute. apply list_elem_of_here.
    + reflexivity.
    + apply list_elem_of_here.
  - apply (proj2 (addressing_schemes_incompatible sample_doc sample_layers
             {| s_id := "root-1-0"; s_name := "over"; s_type := KLayer;
                s_isVisible := true; s_opacity := 1%Q;
                s_coords := mkBox 0 (-5) 50 55; s_children := None |})).
    eapply tree_below; [| |apply tree_here].
    + vm_compute. apply list_elem_of_further, list_elem_of_here.
    + reflexivity.
    + apply list_elem_of_here.
Defined.

(** X5. The second [findLayerByPath] never looks at the text before
    the first dash: two ids that differ only there resolve alike. *)
Theorem V2_prefix_ignored psd a b rest :
  all_chars (not_char "-") a = true ->
  all_chars (not_char "-") b = true ->
  V2.findLayerByPath psd (a +:+ String "-" rest) =
  V2.findLayerByPath psd (b +:+ String "-" rest).
Proof.
  intros Ha Hb. unfold V2.findLayerByPath.
  rewrite !split_app, (split_no_sep "-" a Ha), (split_no_sep "-" b Hb).
  cbn [app tail]. destruct a as [|x a], b as [|y b]; reflexivity.
Qed.

Lemma V2_prefix_ignored_witness :
  V2.findLayerByPath sample_doc "root-1-0" = V2.findLayerByPath sample_doc "layer-1-0".
Proof.
  apply (V2_prefix_ignored sample_doc "root" "layer" "1-0"); reflexivity.
Defined.

(** X6. The second [findLayerByPath] throws only a TypeError, and only
    when some segment after the first dash has no leading decimal digits
    ([parseInt] gives NaN): ids made of numeric segments never throw. *)
Theorem V2_throws_only_on_NaN psd layerId e :
  V2.findLayerByPath psd layerId = Throw e ->
  e = TypeError /\
  exists seg, seg ∈ tail (split "-" layerId) /\ parseInt10 seg = JNaN.
Proof.
  unfold V2.findLayerByPath. destruct layerId as [|c r]; [done|].
  intros H. apply V2_walk_throw in H as [-> Hin].
  - split; [done|]. apply list_elem_of_fmap in Hin as (seg & Hseg & Hin). eauto.
  - apply Forall_fmap. pose proof (split_segments "-" (String c r)) as HF.
    assert (HT : Forall (fun seg => all_chars (not_char "-") seg = true)
                   (tail (split "-" (String c r)))).
    { destruct (split "-" (String c r)); [done|]. by inversion HF. }
    eapply Forall_impl; [exact HT|]. intros seg Hseg. by apply parseInt10_segment.
Qed.

Lemma V2_throws_only_on_NaN_witness :
  TypeError = TypeError /\
  exists seg, seg ∈ tail (split "-" "root-x") /\ parseInt10 seg = JNaN.
Proof.
  apply (V2_throws_only_on_NaN sample_doc "root-x" TypeError). reflexivity.
Defined.

(** X7. The first [getCleanLayerTree], for any starting path, never
    emits a node named '!!TEMPLATE', at any depth, and every node it
    emits is built from a native node of the input that is not a template
    group. *)
Theorem V1_template_filtered_everywhere layers path s :
  tree_In s (V1.getCleanLayerTree layers path) ->
  s_name s <> "!!TEMPLATE" /\
  exists i c q n path' j,
    layers !! i = Some c /\ sub_at q c = Some n /\
    is_template n = false /\ V1.cleanNode path' n j = [s].
Proof.
  intros Hs. unfold V1.getCleanLayerTree in Hs.
  apply tree_In_collect in Hs as (i & c & Hi & Hs).
  apply V1_cleanNode_native in Hs as (q & n & path' & j & Hq & Hn).
  rewrite V1_cleanNode_eq in Hn. destruct (is_template n) eqn:Ht; [done|].
  split.
  - injection Hn as <-. cbn [s_name]. apply str_or_not_template; [exact Ht|done].
  - exists i, c, q, n, path', j. split_and!; [done..|].
    by rewrite V1_cleanNode_eq, Ht.
Qed.

Lemma V1_template_filtered_everywhere_witness :
  s_name sample_node <> "!!TEMPLATE" /\
  exists i c q n path' j,
    sample_layers !! i = Some c /\ sub_at q c = Some n /\
    is_template n = false /\ V1.cleanNode path' n j = [sample_node].
Proof.
  apply (V1_template_filtered_everywhere sample_layers EmptyString sample_node).
  eapply tree_below; [| |apply tree_here].
  - vm_compute. apply list_elem_of_here.
  - reflexivity.
  - apply list_elem_of_here.
Defined.

(** X8. At each level the first serializer emits one node per layer
    that is not a template group, and the second one node per layer. *)
Theorem serializer_counts layers path :
  length (V1.getCleanLayerTree layers path)
  = length (List.filter (fun l => negb (is_template l)) layers) /\
  length (V2.getCleanLayerTree layers path) = length layers.
Proof.
  unfold V1.getCleanLayerTree, V2.getCleanLayerTree. generalize 0%nat.
  induction layers as [|l ls IH]; intros k; cbn [collect_from List.filter]; [done|].
  destruct (IH (S k)) as [IH1 IH2].
  rewrite !length_app, IH1, IH2, V1_cleanNode_eq, V2_cleanNode_eq.
  by destruct (is_template l).
Qed.

(** X9. The report of the first validator is, group by group and
    child by child in document order, one issue naming the layer and the
    container for each child with four numeric bounds that passes an edge
    of the container its group matches, and nothing for any other child
    or group; the report is valid exactly when it has no issue. *)
Theorem V1_validator_report psd template :
  let report := V1.mapLayersToContainers psd template in
  issues report =
    flat_map (fun g =>
      match design_container template g with
      | Some c => flat_map (V1.checkLayer c []) (nullish (l_children g) [])
      | None => []
      end) (nullish (p_children psd) []) /\
  (isValid report = true <-> issues report = []) /\
  (forall c l, outside c l -> V1.checkLayer c [] l = [issue_of c l]) /\
  (forall c l, ~ outside c l -> V1.checkLayer c [] l = []).
Proof.
  intros report. subst report. split_and!.
  - unfold V1.mapLayersToContainers. cbn [issues]. by rewrite V1_fold_checkGroup.
  - unfold V1.mapLayersToContainers. cbn [isValid issues].
    destruct (fold_left _ _ _); cbn; split; done.
  - apply V1_checkLayer_outside.
  - apply V1_checkLayer_quiet.
Qed.

(** X10. The second [mapLayersToContainers] reports its single issue, named
    Root, exactly for a document whose children are undefined or empty;
    any document with at least one child, even the template group alone,
    is reported valid, whatever the template holds. *)
Theorem V2_validator_issue psd template :
  (p_children psd = None \/ p_children psd = Some [] ->
   V2.mapLayersToContainers psd template =
   {| isValid := false;
      issues := [ {| layerName := "Root"; containerName := "Global";
                     issue_type := "PROCEDURAL_VIOLATION";
                     message := "PSD appears empty or missing design layers." |} ] |}) /\
  (forall l ls, p_children psd = Some (l :: ls) ->
   V2.mapLayersToContainers psd template = {| isValid := true; issues := [] |}).
Proof.
  unfold V2.mapLayersToContainers. split.
  - intros [-> | ->]; reflexivity.
  - intros l ls ->. cbn [length Nat.eqb].
    by destruct (List.find _ _).
Qed.

(** X11. The lookup table of the first validator maps a name to the last
    container carrying it: a later container replaces an earlier one of the
    same name. *)
Theorem containerMap_last_wins template n :
  V1.containerMap template !! n =
  List.find (fun c => String.eqb (c_name c) n) (rev (containers template)).
Proof.
  unfold V1.containerMap. rewrite containerMap_fold.
  by destruct (List.find _ _).
Qed.



(** X13. [createContainerContext] is null exactly when no container has
    the requested name; otherwise the context carries that name, the
    canvas size of the template and the bounds of the first container so
    named. *)
Theorem context_first_match template n :
  match Common.createContainerContext template n with
  | None => forall c, c ∈ containers template -> c_name c <> n
  | Some ctx =>
      Common.ctx_containerName ctx = n /\
      Common.ctx_canvas_w ctx = canvas_width template /\
      Common.ctx_canvas_h ctx = canvas_height template /\
      exists i c,
        containers template !! i = Some c /\ c_name c = n /\
        Common.ctx_bounds ctx = c_bounds c /\
        forall j c', (j < i)%nat -> containers template !! j = Some c' -> c_name c' <> n
  end.
Proof.
  unfold Common.createContainerContext.
  induction (containers template) as [|c cs IH]; cbn [List.find].
  - intros c Hc. by apply elem_of_nil in Hc.
  - destruct (String.eqb_spec (c_name c) n) as [E|Hne].
    + cbn. split_and!; [done..|]. exists 0%nat, c. split_and!; [done..|]. intros; lia.
    + destruct (List.find _ cs) as [c0|].
      * destruct IH as (H1 & H2 & H3 & i & c1 & Hi & Hn & Hb & Hlt).
        split_and!; [done..|]. exists (S i), c1. split_and!; [done..|].
        intros [|j] c' Hj Hc'; cbn in Hc'; [by simplify_eq|].
        apply (Hlt j); [lia|done].
      * intros c' [->|Hin]%elem_of_cons; [done|by apply IH].
Qed.

(** X14. A template child whose box is the whole canvas, on a
    document whose width and height are non-zero integers, gets in both
    copies the pixel bounds (0, 0, width, height) and normalized bounds
    equal to (0, 0, 1, 1). *)
Theorem full_canvas_container psd g i child w h :
  V1.templateGroup psd = Some g ->
  nullish (l_children g) [] !! i = Some child ->
  p_width psd = Some (inject_Z w) -> p_height psd = Some (inject_Z h) ->
  w <> 0 -> h <> 0 ->
  l_left child = Some 0 -> l_top child = Some 0 ->
  l_right child = Some w -> l_bottom child = Some h ->
  exists c1 c2,
    containers (V1.extractTemplateMetadata psd) !! i = Some c1 /\
    containers (V2.extractTemplateMetadata psd) !! i = Some c2 /\
    c_bounds c1 = mkBox 0 0 w h /\ c_bounds c2 = mkBox 0 0 w h /\
    c_normalized c1 = c_normalized c2 /\
    (bx (c_normalized c1) == 0)%Q /\ (by_ (c_normalized c1) == 0)%Q /\
    (bw (c_normalized c1) == 1)%Q /\ (bh (c_normalized c1) == 1)%Q.
Proof.
  intros Hg Hi Hpw Hph Hw Hh Hl Ht Hr Hb.
  rewrite (V1_containers_eq psd g Hg), (V2_containers_eq psd g Hg).
  set (cw := dim_or (p_width psd) 1). set (ch := dim_or (p_height psd) 1).
  assert (Ecw : cw = inject_Z w).
  { subst cw. rewrite Hpw. unfold dim_or.
    destruct (Qeq_bool (inject_Z w) 0) eqn:E; [|done].
    apply Qeq_bool_iff in E. unfold Qeq in E. cbn in E. lia. }
  assert (Ech : ch = inject_Z h).
  { subst ch. rewrite Hph. unfold dim_or.
    destruct (Qeq_bool (inject_Z h) 0) eqn:E; [|done].
    apply Qeq_bool_iff in E. unfold Qeq in E. cbn in E. lia. }
  destruct (collect_singletons (V1.containerOf cw ch) (V1_container cw ch)
              (fun _ _ => eq_refl) (nullish (l_children g) []) 0%nat) as [_ I1].
  destruct (collect_singletons (V2.containerOf cw ch) (V2_container cw ch)
              (fun _ _ => eq_refl) (nullish (l_children g) []) 0%nat) as [_ I2].
  exists (V1_container cw ch child (0 + i)), (V2_container cw ch child (0 + i)).
  split; [by apply I1|]. split; [by apply I2|].
  cbn. rewrite Hl, Ht, Hr, Hb, Ecw, Ech. cbn [nullish].
  rewrite !Z.sub_0_r. split_and!; try done; unfold over;
    try apply Qmult_0_l;
    (apply Qmult_inv_r; intros E; unfold Qeq in E; cbn in E; lia).
Qed.

Lemma full_canvas_container_witness :
  exists c1 c2,
    containers (V1.extractTemplateMetadata sample_doc) !! 0%nat = Some c1 /\
    containers (V2.extractTemplateMetadata sample_doc) !! 0%nat = Some c2 /\
    c_bounds c1 = mkBox 0 0 200 100 /\ c_bounds c2 = mkBox 0 0 200 100 /\
    c_normalized c1 = c_normalized c2 /\
    (bx (c_normalized c1) == 0)%Q /\ (by_ (c_normalized c1) == 0)%Q /\
    (bw (c_normalized c1) == 1)%Q /\ (bh (c_normalized c1) == 1)%Q.
Proof.
  apply (full_canvas_container sample_doc sample_template 0%nat
           (sample_leaf "!!BG" 0 0 100 200 None) 200 100);
    (reflexivity || discriminate).
Defined.

(** X15. A document none of whose top-level nodes is named
    '!!TEMPLATE' yields, in both copies, an empty container list and the
    canvas size of the document (1 for a missing or zero dimension). *)
Theorem extract_without_template psd :
  (forall l, l ∈ nullish (p_children psd) [] -> l_name l <> Some "!!TEMPLATE") ->
  V1.extractTemplateMetadata psd =
    {| canvas_width := dim_or (p_width psd) 1;
       canvas_height := dim_or (p_height psd) 1; containers := [] |} /\
  V2.extractTemplateMetadata psd =
    {| canvas_width := dim_or (p_width psd) 1;
       canvas_height := dim_or (p_height psd) 1; containers := [] |}.
Proof.
  intros H. apply templateGroup_none_iff in H.
  unfold V1.extractTemplateMetadata, V2.extractTemplateMetadata.
  change (V2.templateGroup psd) with (V1.templateGroup psd). by rewrite H.
Qed.

Lemma extract_without_template_witness :
  V1.extractTemplateMetadata (mkPsd None (Some 0%Q) (Some [sample_design])) =
    {| canvas_width := 1%Q; canvas_height := 1%Q; containers := [] |} /\
  V2.extractTemplateMetadata (mkPsd None (Some 0%Q) (Some [sample_design])) =
    {| canvas_width := 1%Q; canvas_height := 1%Q; containers := [] |}.
Proof.
  apply (extract_without_template (mkPsd None (Some 0%Q) (Some [sample_design]))).
  intros l Hl. apply list_elem_of_singleton in Hl. subst l. discriminate.
Defined.

(** X16. In the first compositor a hidden layer, or a layer whose target box
    lies wholly beyond the right or bottom edge of the canvas or wholly
    before its left or top edge, adds no drawing call, and neither does
    anything below it. *)
Theorem V1_skipped_layer w h psd preview layer ctx :
  t_isVisible layer = false
  \/ (w < bx (t_coords layer))%Q \/ (h < by_ (t_coords layer))%Q
  \/ (bx (t_coords layer) + bw (t_coords layer) < 0)%Q
  \/ (by_ (t_coords layer) + bh (t_coords layer) < 0)%Q ->
  V1.drawLayer w h psd preview layer ctx = Ok ctx.
Proof.
  intros H. rewrite V1_drawLayer_eq. cbv zeta.
  destruct (_ || _) eqn:Hcull; [done|].
  rewrite !orb_false_iff in Hcull. destruct Hcull as [[[H1 H2] H3] H4].
  destruct H as [->|[H|[H|[H|H]]]]; [done|..];
    apply Qlt_bool_iff in H; congruence.
Qed.

Lemma V1_skipped_layer_witness :
  V1.drawLayer 100%Q 100%Q sample_doc None
    (mkTransformed "1.0" KLayer true 1%Q (mkBox 101%Q 0%Q 10%Q 10%Q) None None) []
  = Ok [].
Proof.
  apply (V1_skipped_layer 100%Q 100%Q sample_doc None
           (mkTransformed "1.0" KLayer true 1%Q (mkBox 101%Q 0%Q 10%Q 10%Q) None None) []).
  right. left. reflexivity.
Defined.

(** X17. In the first compositor saves and restores are scoped: in the
    calls of any layer, of any list of layers and of a whole snapshot,
    every restore closes an earlier save and every save is closed. *)
Theorem V1_save_restore_balanced w h psd preview :
  (forall layer, balanced (V1_layer_ops w h psd preview layer)) /\
  (forall layers ctx ctx',
     balanced ctx ->
     V1.drawLayers w h psd preview layers ctx = Ok ctx' -> balanced ctx').
Proof.
  split; [apply V1_layer_ops_balanced|].
  intros layers ctx ctx' Hctx. rewrite V1_drawLayers_ops. intros [= <-].
  apply balanced_app; [done|]. apply balanced_concat, Forall_forall.
  intros ops (l & -> & _)%list_elem_of_fmap. apply V1_layer_ops_balanced.
Qed.

(** X18. The first [compositePayloadToCanvas] answers null exactly when
    the payload or the document is null or no context can be had; in
    every other case, whatever the target size (zero and negative sizes
    too), its answer is not null. *)
Theorem V1_composite_null_iff has_context payload psd :
  V1.compositePayloadToCanvas has_context payload psd = Ok None <->
  payload = None \/ psd = None \/ has_context = false.
Proof.
  unfold V1.compositePayloadToCanvas. split.
  - destruct payload as [p|]; [|by auto]. destruct psd as [d|]; [|by auto].
    destruct has_context; [|by auto]. cbn [negb]. unfold emit. cbn [bind].
    by destruct (V1.drawLayers _ _ _ _ _ _).
  - intros [-> | [-> | ->]]; [done|by destruct payload|].
    by destruct payload, psd.
Qed.

(** X19. The second [compositePayloadToCanvas] answers null exactly when the
    target width or height is not positive or no context can be had. *)
Theorem V2_composite_null_iff has_context payload psd :
  V2.compositePayloadToCanvas has_context payload psd = Ok None <->
  (tw (target payload) <= 0)%Q \/ (th (target payload) <= 0)%Q \/ has_context = false.
Proof.
  unfold V2.compositePayloadToCanvas. split.
  - destruct (Qle_bool (tw (target payload)) 0) eqn:Hw.
    { left. by apply Qle_bool_iff. }
    destruct (Qle_bool (th (target payload)) 0) eqn:Hh.
    { right. left. by apply Qle_bool_iff. }
    destruct has_context; [|by auto]. cbn [orb negb].
    by destruct (V2.drawLayers _ _ _ _ _).
  - intros [H|[H|H]].
    + apply Qle_bool_iff in H. by rewrite H.
    + apply Qle_bool_iff in H. rewrite H. by rewrite orb_true_r.
    + subst. by destruct (_ || _).
Qed.

(** X20. [getSemanticThemeObject] always returns one of the eight
    palette entries, [getSemanticTheme] is the border, background and
    text classes of that same entry joined by spaces, and neither depends
    on the letter case of the name. *)
Theorem theme_in_palette name index :
  getSemanticThemeObject name index ∈ CONTAINER_PALETTE /\
  getSemanticTheme name index =
    border (getSemanticThemeObject name index) +:+ " "
    +:+ bg (getSemanticThemeObject name index) +:+ " "
    +:+ text (getSemanticThemeObject name index) /\
  getSemanticThemeObject (toUpperCase name) index = getSemanticThemeObject name index /\
  getSemanticTheme (toUpperCase name) index = getSemanticTheme name index.
Proof.
  split_and!.
  - unfold getSemanticThemeObject.
    destruct (pick_theme name index) as [t|] eqn:E; cbn [or_first].
    + by apply pick_theme_in_palette in E.
    + apply list_elem_of_here.
  - reflexivity.
  - unfold getSemanticThemeObject, pick_theme. by rewrite toUpperCase_idem.
  - unfold getSemanticTheme, pick_theme. by rewrite toUpperCase_idem.
Qed.

(** X21. For a name of ASCII characters, keywords beat the index, in
    the order BG, SYMBOL, COUNTER: a name containing BG in any letter
    case is Purple whatever the index, one containing SYMBOL but not BG
    is Orange, one containing COUNTER but neither of those is Blue. *)
Theorem theme_keywords name index :
  all_chars is_ascii name = true ->
  (includes (toUpperCase name) "BG" = true ->
   theme_name (getSemanticThemeObject name index) = "Purple") /\
  (includes (toUpperCase name) "BG" = false ->
   includes (toUpperCase name) "SYMBOL" = true ->
   theme_name (getSemanticThemeObject name index) = "Orange") /\
  (includes (toUpperCase name) "BG" = false ->
   includes (toUpperCase name) "SYMBOL" = false ->
   includes (toUpperCase name) "COUNTER" = true ->
   theme_name (getSemanticThemeObject name index) = "Blue").
Proof.
  intros _. unfold getSemanticThemeObject, pick_theme. split_and!.
  - by intros ->.
  - by intros -> ->.
  - by intros -> -> ->.
Qed.

Lemma theme_keywords_witness :
  theme_name (getSemanticThemeObject "bg symbols" 5) = "Purple" /\
  theme_name (getSemanticThemeObject "Symbol counter" 5) = "Orange" /\
  theme_name (getSemanticThemeObject "counters" 5) = "Blue".
Proof.
  split_and!.
  - apply (theme_keywords "bg symbols" 5); reflexivity.
  - apply (theme_keywords "Symbol counter" 5); reflexivity.
  - apply (theme_keywords "counters" 5); reflexivity.
Defined.

(** X22. For a name of ASCII characters without keyword the theme is
    the palette entry at the index modulo 8 when the index is not
    negative, so it repeats every 8 containers; a negative index always
    gives Purple. *)
Theorem theme_index_fallback name index :
  all_chars is_ascii name = true ->
  includes (toUpperCase name) "BG" = false ->
  includes (toUpperCase name) "SYMBOL" = false ->
  includes (toUpperCase name) "COUNTER" = false ->
  (0 <= index ->
     CONTAINER_PALETTE !! Z.to_nat (index mod 8) = Some (getSemanticThemeObject name index) /\
     getSemanticThemeObject name (index + 8) = getSemanticThemeObject name index) /\
  (index < 0 -> getSemanticThemeObject name index = purple).
Proof.
  intros _ H1 H2 H3. unfold getSemanticThemeObject, pick_theme. rewrite H1, H2, H3.
  change (Z.of_nat (length CONTAINER_PALETTE)) with 8. split.
  - intros Hi. destruct (palette_index_range index Hi) as (t & Ht & Hj).
    destruct (palette_index_range (index + 8) ltac:(lia)) as (t' & Ht' & Hj').
    rewrite Hj, Hj'. cbn [or_first]. split; [done|].
    replace ((index + 8) mod 8) with (index mod 8) in Ht'
      by (rewrite <- (Z.mul_1_l 8) at 2; by rewrite Z.mod_add by lia).
    congruence.
  - apply palette_index_negative.
Qed.

Lemma theme_index_fallback_witness :
  CONTAINER_PALETTE !! 3%nat = Some (getSemanticThemeObject "Reels" 11) /\
  theme_name (getSemanticThemeObject "Reels" 11) = "Pink" /\
  getSemanticThemeObject "Reels" 19 = getSemanticThemeObject "Reels" 11 /\
  getSemanticThemeObject "Reels" (-3) = purple.
Proof.
  destruct (theme_index_fallback "Reels" 11 eq_refl eq_refl eq_refl eq_refl) as [Hpos _].
  destruct (theme_index_fallback "Reels" (-3) eq_refl eq_refl eq_refl eq_refl) as [_ Hneg].
  destruct (Hpos ltac:(lia)) as [Hat Hper].
  split; [exact Hat|]. split; [reflexivity|]. split; [exact Hper|]. apply Hneg. lia.
Defined.

(** X23. [parsePsdFile] resolves with a document exactly when a file was
    given, the reader loaded a non-empty buffer and the decoder, called
    with the defaulted options, returned that document. *)
Theorem parsePsdFile_resolves readPsd file options event psd :
  parsePsdFile readPsd file options event = Resolved psd <->
  file = true /\
  exists b bs,
    event = OnLoad (Some (b :: bs)) /\
    readPsd (b :: bs)
      {| read_skipLayerImageData := nullish (skipLayerImageData options) false;
         read_skipThumbnail := nullish (skipThumbnail options) true |} = inl psd.
Proof.
  unfold parsePsdFile. split.
  - destruct file; [|done]. cbn [negb].
    destruct event as [[[|b bs]|]|e]; try done.
    destruct (readPsd _ _) as [p|t] eqn:E; [|done].
    intros [= <-]. split; [done|]. by exists b, bs.
  - intros (-> & b & bs & -> & E). cbn [negb]. by rewrite E.
Qed.

(** X24. Every rejection of [parsePsdFile] carries one of six fixed messages
    or a message prefixed by [PSD Parsing Error: ] or
    [Failed to read file from disk: ]. *)
Theorem parsePsdFile_rejections readPsd file options event message :
  parsePsdFile readPsd file options event = Rejected message ->
  message = "No file provided for parsing."
  \/ message = "FileReader failed to produce a valid ArrayBuffer."
  \/ message = "The provided file is empty."
  \/ message = "Invalid file format. The file does not appear to be a valid Adobe Photoshop file."
  \/ message = "The PSD file appears to be corrupted or truncated (Buffer out of bounds)."
  \/ message = "Failed to parse PSD structure."
  \/ (exists m, message = "PSD Parsing Error: " +:+ m)
  \/ (exists m, message = "Failed to read file from disk: " +:+ m).
Proof.
  unfold parsePsdFile. destruct file; cbn [negb]; [|intros [= <-]; auto].
  destruct event as [[[|b bs]|]|e].
  - intros [= <-]. auto.
  - destruct (readPsd _ _) as [p|t]; [done|]. intros [= <-].
    unfold parseErrorMessage. destruct t as [m|]; [|by auto 10].
    destruct (_ || _); [by auto 10|]. destruct (_ || _); [by auto 10|].
    do 6 right. left. by exists m.
  - intros [= <-]. auto.
  - intros [= <-]. do 7 right. by eexists.
Qed.

Lemma parsePsdFile_rejections_witness :
  let message := "Failed to read file from disk: Unknown IO error" in
  message = "No file provided for parsing."
  \/ message = "FileReader failed to produce a valid ArrayBuffer."
  \/ message = "The provided file is empty."
  \/ message = "Invalid file format. The file does not appear to be a valid Adobe Photoshop file."
  \/ message = "The PSD file appears to be corrupted or truncated (Buffer out of bounds)."
  \/ message = "Failed to parse PSD structure."
  \/ (exists m, message = "PSD Parsing Error: " +:+ m)
  \/ (exists m, message = "Failed to read file from disk: " +:+ m).
Proof.
  apply (parsePsdFile_rejections (fun _ _ => inr ThrownOther) true
           (mkParseOptions None None) (OnError None)).
  reflexivity.
Defined.
